(** * HSE file manager: a shallow embedding of the scanning core

    The development follows the three Python modules of the core:
    [utils.py] (metadata resolver), [file_manager.py] (directory listing,
    search, content digests) and [smart_features.py] (access history,
    duplicate and large-file scanners).

    Python exceptions are modelled by the [result] monad, the operating
    system by the record [World], whose fields are the observations the
    code makes through [os], [os.path], [open], [hashlib] and [json].

    A Python [str] is modelled by a [string] whose characters are its code
    points: the paths, names and keywords of the model are the strings over
    the code points below 256.  The messages, category names and icons of the
    program that use other characters stand in their UTF-8 bytes; they are
    constants, only compared for equality. *)

From Stdlib Require Import ZArith Ascii String List Lia Bool Sorting.Sorted Permutation.
From stdpp Require Import base option list gmap strings pretty.

Local Open Scope string_scope.
Local Open Scope Z_scope.

(** ** Exceptions *)

Module Py.

Inductive exn : Type :=
  | OSError
  | PermissionError
  | AttributeError
  | ValueError
  | TypeError
  | JSONDecodeError.

Inductive result (A : Type) : Type :=
  | Ok (a : A)
  | Raise (e : exn).
Arguments Ok {A} a.
Arguments Raise {A} e.

#[export] Instance result_ret : MRet result := fun A a => Ok a.
#[export] Instance result_bind : MBind result := fun A B f m =>
  match m with
  | Ok a => f a
  | Raise e => Raise e
  end.

(** [try: body except Exception as e: handler e].  Every member of [exn]
    derives from [Exception]. *)
Definition try_except {A : Type} (body : result A) (handler : exn -> A) : A :=
  match body with
  | Ok a => a
  | Raise e => handler e
  end.

(** [try: body except PermissionError: h1 except Exception: h2]. *)
Definition is_PermissionError (e : exn) : bool :=
  match e with PermissionError => true | _ => false end.

(** *** Attribute lookup on the [datetime] module

    [import datetime] binds the name [datetime] to the module; the class of
    the same name is one of its attributes, and [fromtimestamp], [now] and
    [strptime] are class methods of that class, not of the module. *)
Inductive object : Type :=
  | DatetimeModule
  | DatetimeClass
  | DateClass
  | TimeClass
  | TimedeltaClass
  | TimezoneClass
  | TzinfoClass
  | IntConst (z : Z)
  | FromTimestamp
  | Now
  | Strptime.

Definition datetime_module_dict : list (string * object) :=
  [ ("MINYEAR", IntConst 1); ("MAXYEAR", IntConst 9999);
    ("date", DateClass); ("datetime", DatetimeClass); ("time", TimeClass);
    ("timedelta", TimedeltaClass); ("timezone", TimezoneClass);
    ("tzinfo", TzinfoClass) ].

Definition datetime_class_dict : list (string * object) :=
  [ ("fromtimestamp", FromTimestamp); ("now", Now); ("strptime", Strptime) ].

Fixpoint assoc {A : Type} (k : string) (l : list (string * A)) : option A :=
  match l with
  | [] => None
  | (k', v) :: l' => if String.eqb k k' then Some v else assoc k l'
  end.

Definition getattr (o : object) (name : string) : result object :=
  let dict :=
    match o with
    | DatetimeModule => datetime_module_dict
    | DatetimeClass => datetime_class_dict
    | _ => []
    end in
  match assoc name dict with
  | Some v => Ok v
  | None => Raise AttributeError
  end.

(** Calling an object with a timestamp: only [datetime.datetime.fromtimestamp]
    accepts it. *)
Definition call_timestamp (f : object) (ts : Z) : result Z :=
  match f with
  | FromTimestamp => Ok ts
  | _ => Raise TypeError
  end.

(** *** Strings *)

(** The lower-case form of a code point below 256: the letters [A] to [Z]
    and [U+00C0] to [U+00DE], the multiplication sign [U+00D7] apart, move up
    by 32; every other code point of that range is its own lower-case form. *)
Definition lower_char (c : ascii) : ascii :=
  let n := nat_of_ascii c in
  if (((65 <=? n) && (n <=? 90))
      || ((192 <=? n) && (n <=? 222) && negb (n =? 215)))%nat%bool
  then ascii_of_nat (n + 32) else c.

(** [str.lower]: below code point 256 it maps character by character. *)
Fixpoint lower (s : string) : string :=
  match s with
  | EmptyString => EmptyString
  | String c s' => String (lower_char c) (lower s')
  end.

(** [s.startswith(c)] for a one-character prefix. *)
Definition startswith (s : string) (c : ascii) : bool :=
  match s with
  | String a _ => Ascii.eqb a c
  | EmptyString => false
  end.

Fixpoint endswith_char (s : string) (c : ascii) : bool :=
  match s with
  | EmptyString => false
  | String a EmptyString => Ascii.eqb a c
  | String _ s' => endswith_char s' c
  end.

(** [s.rfind(c)]: index of the last occurrence, [-1] when there is none. *)
Fixpoint rfind_from (c : ascii) (s : string) (i : Z) : Z :=
  match s with
  | EmptyString => -1
  | String a s' =>
      let r := rfind_from c s' (i + 1) in
      if 0 <=? r then r else if Ascii.eqb a c then i else -1
  end.

Definition rfind (s : string) (c : ascii) : Z := rfind_from c s 0.

Fixpoint take_str (n : nat) (s : string) : string :=
  match n, s with
  | O, _ => EmptyString
  | S n', String a s' => String a (take_str n' s')
  | S _, EmptyString => EmptyString
  end.

Fixpoint drop_str (n : nat) (s : string) : string :=
  match n, s with
  | O, _ => s
  | S n', String _ s' => drop_str n' s'
  | S _, EmptyString => EmptyString
  end.

(** [sub in s]. *)
Fixpoint contains (sub s : string) : bool :=
  if String.prefix sub s then true
  else match s with
       | EmptyString => false
       | String _ s' => contains sub s'
       end.

(** [s.endswith(suffix)]. *)
Definition endswith (s suffix : string) : bool :=
  let n := String.length s in
  let m := String.length suffix in
  ((m <=? n)%nat && String.eqb (drop_str (n - m) s) suffix)%bool.

(** Stable sort, the order being given by [le] on the elements: an element
    stays in front of the later elements it is not greater than. *)
Fixpoint insert_sorted {A : Type} (le : A -> A -> bool) (x : A) (l : list A) : list A :=
  match l with
  | [] => [x]
  | y :: l' => if le x y then x :: y :: l' else y :: insert_sorted le x l'
  end.

Definition sorted_by {A : Type} (le : A -> A -> bool) (l : list A) : list A :=
  fold_right (insert_sorted le) [] l.

Definition exn_str (e : exn) : string :=
  match e with
  | OSError => "OSError"
  | PermissionError => "PermissionError"
  | AttributeError => "AttributeError"
  | ValueError => "ValueError"
  | TypeError => "TypeError"
  | JSONDecodeError => "JSONDecodeError"
  end.

(** Slices [s[:i]] and [s[i:]] for an index [0 <= i]. *)
Definition slice_to (s : string) (i : Z) : string := take_str (Z.to_nat i) s.
Definition slice_from (s : string) (i : Z) : string := drop_str (Z.to_nat i) s.

(** [s[i:i+1]]. *)
Definition char_at (s : string) (i : Z) : string :=
  take_str 1 (drop_str (Z.to_nat i) s).

End Py.

Import Py.

(** ** The operating system *)

Inductive file_kind : Type := Regular | Directory | Special.

(** What [os.stat] reports about a path. *)
Record stat_result : Type := {
  st_kind : file_kind;
  st_size : Z;
  st_mtime : Z
}.

(** The state of the history file as [_load_history] observes it: absent,
    present but rejected by [open] or [json.load], or holding a document.
    A document keeps what [json.dump] wrote, so that [json.load] of a dumped
    value returns that value.  Each of the two keys may be missing, which is
    what [data.get(key, default)] guards against. *)
Record history_doc : Type := {
  doc_recent_files : option (list string);
  doc_frequent_items : option (gmap string Z)
}.

Inductive history_file_state : Type :=
  | Missing
  | Corrupt (e : exn)
  | Document (d : history_doc).

(** One triple yielded by [os.walk]: [(dirpath, dirnames, filenames)]. *)
Definition walk_entry : Type := string * list string * list string.

(** The environment of the program.  Paths are strings; the history file is
    tracked apart from the scanned tree. *)
Record World : Type := {
  os_stat : string -> option stat_result;        (* os.stat, None when it raises OSError *)
  os_access_R : string -> result bool;           (* os.access(p, os.R_OK) *)
  os_scandir : string -> result (list string);   (* entry.path of each entry *)
  os_walk : string -> list walk_entry;           (* os.walk(root) *)
  read_bytes : string -> result string;          (* open(p, 'rb') and read to the end *)
  hexdigest : string -> string -> string;        (* hashlib: algorithm, bytes *)
  strftime : string -> Z -> string;              (* local time of a timestamp, formatted *)
  now : Z;                                       (* datetime.datetime.now().timestamp() *)
  fmt_2f : Z -> Z -> string;                     (* f"{a / b:.2f}" *)
  history_file : history_file_state;
  history_writable : bool                        (* open(history_file, 'w') succeeds *)
}.

(** *** [os.path], POSIX flavour *)

Module OsPath.

Definition sep : ascii := "/"%char.
Definition extsep : ascii := "."%char.

Definition exists_ (w : World) (p : string) : bool :=
  match os_stat w p with Some _ => true | None => false end.

Definition isdir (w : World) (p : string) : bool :=
  match os_stat w p with
  | Some st => match st_kind st with Directory => true | _ => false end
  | None => false
  end.

Definition isfile (w : World) (p : string) : bool :=
  match os_stat w p with
  | Some st => match st_kind st with Regular => true | _ => false end
  | None => false
  end.

Definition getsize (w : World) (p : string) : result Z :=
  match os_stat w p with
  | Some st => Ok (st_size st)
  | None => Raise OSError
  end.

Definition getmtime (w : World) (p : string) : result Z :=
  match os_stat w p with
  | Some st => Ok (st_mtime st)
  | None => Raise OSError
  end.

Definition isabs (p : string) : bool := startswith p sep.

Definition join (a b : string) : string :=
  if startswith b sep then b
  else if (String.eqb a "" || endswith_char a sep)%bool then String.append a b
  else String.append a (String sep b).

Definition basename (p : string) : string :=
  slice_from p (rfind p sep + 1).

(** The loop of [genericpath._splitext] that skips leading dots: [n] is the
    number of indices left before [dotIndex]. *)
Fixpoint splitext_loop (p : string) (dotIndex filenameIndex : Z) (n : nat)
  : string * string :=
  match n with
  | O => (p, "")
  | S n' =>
      if negb (String.eqb (char_at p filenameIndex) (String extsep ""))
      then (slice_to p dotIndex, slice_from p dotIndex)
      else splitext_loop p dotIndex (filenameIndex + 1) n'
  end.

Definition splitext (p : string) : string * string :=
  let sepIndex := rfind p sep in
  let dotIndex := rfind p extsep in
  if sepIndex <? dotIndex then
    let filenameIndex := sepIndex + 1 in
    splitext_loop p dotIndex filenameIndex (Z.to_nat (dotIndex - filenameIndex))
  else (p, "").

End OsPath.

(** ** utils.py *)

Module Utils.

Import OsPath.

Definition str_in (s : string) (l : list string) : bool :=
  existsb (String.eqb s) l.

Definition get_file_icon (w : World) (file_path : string) : string :=
  if isdir w file_path then "📁"
  else
    let file_extension := lower (snd (splitext file_path)) in
    if str_in file_extension [".txt"; ".log"; ".md"] then "📄"
    else if str_in file_extension [".pdf"] then "📃"
    else if str_in file_extension [".doc"; ".docx"] then "📝"
    else if str_in file_extension [".xls"; ".xlsx"] then "📊"
    else if str_in file_extension [".ppt"; ".pptx"] then " presentation"
    else if str_in file_extension [".jpg"; ".jpeg"; ".png"; ".gif"; ".bmp"; ".ico"] then "🖼️"
    else if str_in file_extension [".mp3"; ".wav"; ".flac"] then "🎵"
    else if str_in file_extension [".mp4"; ".avi"; ".mkv"] then "🎬"
    else if str_in file_extension [".zip"; ".rar"; ".7z"; ".tar"; ".gz"] then "📦"
    else if str_in file_extension [".exe"; ".msi"] then "⚙️"
    else if str_in file_extension [".py"; ".js"; ".html"; ".css"; ".json"; ".xml"] then "📄"
    else if str_in file_extension [".dll"; ".sys"] then "🔗"
    else "❓".

Definition format_size (w : World) (size_in_bytes : Z) : string :=
  if size_in_bytes <? 1024 then String.append (pretty size_in_bytes) " B"
  else if size_in_bytes <? 1024 ^ 2 then
    String.append (fmt_2f w size_in_bytes 1024) " KB"
  else if size_in_bytes <? 1024 ^ 3 then
    String.append (fmt_2f w size_in_bytes (1024 ^ 2)) " MB"
  else if size_in_bytes <? 1024 ^ 4 then
    String.append (fmt_2f w size_in_bytes (1024 ^ 3)) " GB"
  else String.append (fmt_2f w size_in_bytes (1024 ^ 4)) " TB".

(** The dictionary returned by [get_file_details]. *)
Record details : Type := {
  d_name : string;
  d_path : string;
  d_is_dir : bool;
  d_size : Z;
  d_formatted_size : string;
  d_modified_time : string;
  d_icon : string
}.

(** In [utils.py] the name [datetime] is bound by [import datetime]. *)
Definition datetime : object := DatetimeModule.

(** The body of the [try] block of [get_file_details]. *)
Definition get_file_details_try (w : World) (file_path : string)
  : result (option details) :=
  if negb (exists_ w file_path) then Ok None
  else
    let name := basename file_path in
    let is_dir := isdir w file_path in
    sized ← (if negb is_dir
             then size ← getsize w file_path; Ok (size, format_size w size)
             else Ok (0, ""));
    modified_timestamp ← getmtime w file_path;
    fromtimestamp ← getattr datetime "fromtimestamp";
    dt ← call_timestamp fromtimestamp modified_timestamp;
    let modified_time := strftime w "%Y-%m-%d %H:%M" dt in
    let icon := get_file_icon w file_path in
    Ok (Some {| d_name := name;
                d_path := file_path;
                d_is_dir := is_dir;
                d_size := fst sized;
                d_formatted_size := snd sized;
                d_modified_time := modified_time;
                d_icon := icon |}).

Definition get_file_details (w : World) (file_path : string) : option details :=
  try_except (get_file_details_try w file_path) (fun _ => None).

End Utils.

(** ** file_manager.py *)

Module FileManager.

Import OsPath Utils.

(** The object state: [self.current_path]. *)
Record t : Type := { current_path : string }.

Definition quoted (prefix p suffix : string) : string :=
  String.append prefix (String.append p suffix).

(** Sort key of [list_directory]: [(not x['is_dir'], x['name'].lower())],
    compared as a tuple. *)
Definition listing_le (x y : details) : bool :=
  match negb (d_is_dir x), negb (d_is_dir y) with
  | false, true => true
  | true, false => false
  | _, _ => String.leb (lower (d_name x)) (lower (d_name y))
  end.

(** The [for entry in entries] loop. *)
Fixpoint collect_details (w : World) (entries : list string) : list details :=
  match entries with
  | [] => []
  | entry_path :: rest =>
      match get_file_details w entry_path with
      | Some d => d :: collect_details w rest
      | None => collect_details w rest
      end
  end.

Definition list_directory (w : World) (self : t) (path : string)
  : t * (list details * option string) :=
  let target_path :=
    if isabs path then path else join (current_path self) path in
  if negb (exists_ w target_path) then
    (self, ([], Some (quoted "Lỗi: Đường dẫn không tồn tại: '" target_path "'")))
  else if negb (isdir w target_path) then
    (self, ([], Some (quoted "Lỗi: Đường dẫn không phải là thư mục: '" target_path "'")))
  else
    match os_access_R w target_path with
    | Raise e => (self, ([], Some (String.append "Lỗi kiểm tra quyền truy cập: " (exn_str e))))
    | Ok false =>
        (self, ([], Some (quoted "Lỗi quyền truy cập: Không có quyền đọc thư mục '" target_path "'.")))
    | Ok true =>
        let self := {| current_path := target_path |} in
        match os_scandir w target_path with
        | Ok entries =>
            let items := collect_details w entries in
            (self, (sorted_by listing_le items, None))
        | Raise e =>
            if is_PermissionError e then
              (self, ([], Some (quoted "Lỗi quyền truy cập: Không thể liệt kê nội dung thư mục '" target_path "'.")))
            else
              (self, ([], Some (String.append
                                  (quoted "Lỗi khi liệt kê thư mục '" target_path "': ")
                                  (exn_str e))))
        end
    end.

(** [f.read(block_size)] on what is left of the file: the rest for the size
    [-1], at most [block_size] bytes for a size from 0 on, and [ValueError]
    for a size below [-1]. *)
Definition f_read (rest : string) (block_size : Z) : result string :=
  if block_size <? -1 then Raise ValueError
  else if block_size <? 0 then Ok rest
  else Ok (take_str (Z.to_nat block_size) rest).

(** [for block in iter(lambda: f.read(block_size), b''): hasher.update(block)]:
    the bytes handed to the hasher. *)
Fixpoint hashed_bytes (fuel : nat) (rest : string) (block_size : Z) : result string :=
  match fuel with
  | O => Ok ""
  | S fuel' =>
      block ← f_read rest block_size;
      if String.eqb block "" then Ok ""
      else
        blocks ← hashed_bytes fuel' (drop_str (String.length block) rest) block_size;
        Ok (String.append block blocks)
  end.

(** The body of the [try] block of [get_file_hash]. *)
Definition get_file_hash_try (w : World) (file_path hash_algorithm : string)
    (block_size : Z) : result string :=
  hasher ← (if String.eqb hash_algorithm "md5" then Ok "md5"
            else if String.eqb hash_algorithm "sha1" then Ok "sha1"
            else if String.eqb hash_algorithm "sha256" then Ok "sha256"
            else Raise ValueError);
  content ← read_bytes w file_path;
  hashed ← hashed_bytes (S (String.length content)) content block_size;
  Ok (hexdigest w hasher hashed).

Definition get_file_hash (w : World) (file_path hash_algorithm : string)
    (block_size : Z) : option string :=
  if negb (isfile w file_path) then None
  else try_except
         (h ← get_file_hash_try w file_path hash_algorithm block_size; Ok (Some h))
         (fun _ => None).

(** [os.access(dirpath, os.R_OK)] under [try]/[except]: a directory whose
    check fails or raises is skipped. *)
Definition readable_dir (w : World) (dirpath : string) : bool :=
  match os_access_R w dirpath with
  | Ok b => b
  | Raise _ => false
  end.

Definition text_suffixes : list string :=
  [".txt"; ".log"; ".csv"; ".json"; ".xml"; ".py"; ".html"; ".css"; ".js"].

(** The name or extension test of [search_files]. *)
Definition name_match (search_type keyword_search name_to_check : string) : bool :=
  if (String.eqb search_type "name" && contains keyword_search name_to_check)%bool
  then true
  else if String.eqb search_type "extension" then
    let ext := snd (splitext name_to_check) in
    if (String.eqb keyword_search ext
        || (startswith keyword_search "."%char && String.eqb keyword_search ext))%bool
    then true else false
  else false.

(** One turn of the inner loop of [search_files]: the entry appended to
    [results], if any. *)
Definition search_entry (w : World) (dirpath keyword_search search_type : string)
    (case_sensitive : bool) (min_size_mb max_size_mb days_old : Z)
    (name : string) : option details :=
  let full_path := join dirpath name in
  if negb (exists_ w full_path) then None
  else
    match get_file_details w full_path with
    | None => None
    | Some item_details =>
        let name_to_check := if case_sensitive then name else lower name in
        let name_match := name_match search_type keyword_search name_to_check in
        let is_content := String.eqb search_type "content" in
        if (negb name_match && negb is_content)%bool then None
        else
          let size_match :=
            if negb (d_is_dir item_details) then
              let m1 := if ((0 <? min_size_mb)
                            && (d_size item_details <? min_size_mb * 1024 * 1024))%bool
                        then false else true in
              if ((0 <? max_size_mb)
                  && (max_size_mb * 1024 * 1024 <? d_size item_details))%bool
              then false else m1
            else true in
          if negb size_match then None
          else
            let date_match :=
              if ((0 <? days_old) && negb (d_is_dir item_details))%bool then
                match getmtime w full_path with
                | Ok modified_timestamp =>
                    let diff_seconds := now w - modified_timestamp in
                    (* diff_seconds / (24 * 3600) < days_old *)
                    if diff_seconds <? days_old * (24 * 3600) then false else true
                | Raise _ => false
                end
              else true in
            if negb date_match then None
            else
              let content_match :=
                if (is_content && negb (d_is_dir item_details))%bool then
                  if existsb (endswith (lower name)) text_suffixes then
                    match read_bytes w full_path with
                    | Ok file_content =>
                        let file_content :=
                          if negb case_sensitive then lower file_content
                          else file_content in
                        if negb (contains keyword_search file_content)
                        then false else true
                    | Raise _ => false
                    end
                  else false
                else true in
              if ((negb is_content && name_match && size_match && date_match)
                  || (is_content && content_match && size_match && date_match))%bool
              then Some item_details else None
    end.

Definition search_files (w : World) (root_dir keyword search_type : string)
    (case_sensitive : bool) (min_size_mb max_size_mb days_old : Z) : list details :=
  let keyword_search := if case_sensitive then keyword else lower keyword in
  flat_map
    (fun entry : walk_entry =>
       let '(dirpath, dirnames, filenames) := entry in
       if readable_dir w dirpath then
         omap (search_entry w dirpath keyword_search search_type case_sensitive
                 min_size_mb max_size_mb days_old)
              (filenames ++ dirnames)%list
       else [])
    (os_walk w root_dir).

End FileManager.

(** ** smart_features.py *)

Module SmartFeatures.

Import OsPath Utils.

(** The object state: [self.recent_files], [self.frequent_items] (a
    [defaultdict(int)]) and [self.file_manager]. *)
Record t : Type := {
  recent_files : list string;
  frequent_items : gmap string Z;
  file_manager : FileManager.t
}.

(** The state set up by [__init__] before [_load_history] runs. *)
Definition init (home : string) : t :=
  {| recent_files := [];
     frequent_items := ∅;
     file_manager := {| FileManager.current_path := home |} |}.

(** [[p for p in paths if os.path.exists(p)]]. *)
Definition existing (w : World) (paths : list string) : list string :=
  List.filter (exists_ w) paths.

(** [{p: count for p, count in items if os.path.exists(p)}]. *)
Definition existing_counts (w : World) (counts : gmap string Z) : gmap string Z :=
  filter (fun kv : string * Z => exists_ w kv.1 = true) counts.

(** [open(self.history_file, 'r')] followed by [json.load]. *)
Definition json_load (w : World) : result history_doc :=
  match history_file w with
  | Document d => Ok d
  | Corrupt e => Raise e
  | Missing => Raise OSError
  end.

(** [os.path.exists(self.history_file)]. *)
Definition history_exists (w : World) : bool :=
  match history_file w with Missing => false | _ => true end.

Definition _load_history (w : World) (self : t) : t :=
  if history_exists w then
    try_except
      (data ← json_load w;
       Ok {| recent_files := existing w (default [] (doc_recent_files data));
             frequent_items := existing_counts w (default ∅ (doc_frequent_items data));
             file_manager := file_manager self |})
      (fun _ => self)
  else self.

(** [SmartFeatures(history_file)]. *)
Definition new (w : World) (home : string) : t := _load_history w (init home).

Definition set_history_file (w : World) (h : history_file_state) : World :=
  {| os_stat := os_stat w;
     os_access_R := os_access_R w;
     os_scandir := os_scandir w;
     os_walk := os_walk w;
     read_bytes := read_bytes w;
     hexdigest := hexdigest w;
     strftime := strftime w;
     now := now w;
     fmt_2f := fmt_2f w;
     history_file := h;
     history_writable := history_writable w |}.

(** [open(self.history_file, 'w')] followed by [json.dump]. *)
Definition json_dump (w : World) (d : history_doc) : result World :=
  if history_writable w then Ok (set_history_file w (Document d))
  else Raise PermissionError.

Definition _save_history (w : World) (self : t) : World :=
  try_except
    (json_dump w {| doc_recent_files := Some (recent_files self);
                    doc_frequent_items := Some (frequent_items self) |})
    (fun _ => w).

(** [list.remove(x)]: drops the first occurrence. *)
Fixpoint list_remove (x : string) (l : list string) : list string :=
  match l with
  | [] => []
  | y :: l' => if String.eqb x y then l' else y :: list_remove x l'
  end.

(** [x in l]. *)
Definition list_in (x : string) (l : list string) : bool :=
  existsb (String.eqb x) l.

Definition track_access (w : World) (self : t) (path : string) : World * t :=
  if negb (exists_ w path) then (w, self)
  else
    let recent := recent_files self in
    let recent := if list_in path recent then list_remove path recent else recent in
    let recent := path :: recent in
    let recent := take 50 recent in
    let frequent :=
      <[path := default 0 (frequent_items self !! path) + 1]> (frequent_items self) in
    let self := {| recent_files := recent;
                   frequent_items := frequent;
                   file_manager := file_manager self |} in
    (_save_history w self, self).

Definition get_recent_items (w : World) (self : t) : t * list details :=
  let self := {| recent_files := existing w (recent_files self);
                 frequent_items := frequent_items self;
                 file_manager := file_manager self |} in
  (self, FileManager.collect_details w (recent_files self)).

(** *** Duplicate detection *)

(** [files_by_size[file_size].append(file_path)] on a [defaultdict(list)],
    kept in insertion order. *)
Fixpoint bucket_append (file_size : Z) (file_path : string)
    (files_by_size : list (Z * list string)) : list (Z * list string) :=
  match files_by_size with
  | [] => [(file_size, [file_path])]
  | (s, ps) :: rest =>
      if s =? file_size then (s, (ps ++ [file_path])%list) :: rest
      else (s, ps) :: bucket_append file_size file_path rest
  end.

(** One turn of [for filename in filenames] in the first phase. *)
Definition size_step (w : World) (min_size_bytes : Z) (dirpath : string)
    (files_by_size : list (Z * list string)) (filename : string)
  : list (Z * list string) :=
  let file_path := join dirpath filename in
  if isfile w file_path then
    match getsize w file_path with
    | Ok file_size =>
        if min_size_bytes <=? file_size
        then bucket_append file_size file_path files_by_size
        else files_by_size
    | Raise _ => files_by_size
    end
  else files_by_size.

(** One turn of [for dirpath, _, filenames in os.walk(root_dir)]. *)
Definition size_walk_step (w : World) (min_size_bytes : Z)
    (files_by_size : list (Z * list string)) (entry : walk_entry)
  : list (Z * list string) :=
  let '(dirpath, _, filenames) := entry in
  if FileManager.readable_dir w dirpath
  then fold_left (size_step w min_size_bytes dirpath) filenames files_by_size
  else files_by_size.

(** One turn of [for file_path in file_paths] in the second phase; the state
    is [(hashes, duplicate_hashes)]. *)
Definition hash_step (w : World) (hash_algorithm : string)
    (st : gmap string string * gmap string (list string)) (file_path : string)
  : gmap string string * gmap string (list string) :=
  let '(hashes, duplicate_hashes) := st in
  match FileManager.get_file_hash w file_path hash_algorithm 65536 with
  | Some file_hash =>
      if String.eqb file_hash "" then st
      else
        match hashes !! file_hash with
        | Some first =>
            let duplicate_hashes :=
              match duplicate_hashes !! file_hash with
              | None => <[file_hash := [first]]> duplicate_hashes
              | Some _ => duplicate_hashes
              end in
            (hashes,
             alter (fun l => (l ++ [file_path])%list) file_hash duplicate_hashes)
        | None => (<[file_hash := file_path]> hashes, duplicate_hashes)
        end
  | None => st
  end.

(** One turn of [for size, file_paths in files_by_size.items()]. *)
Definition bucket_step (w : World) (hash_algorithm : string)
    (duplicate_hashes : gmap string (list string)) (bucket : Z * list string)
  : gmap string (list string) :=
  let '(_, file_paths) := bucket in
  if (1 <? length file_paths)%nat then
    snd (fold_left (hash_step w hash_algorithm) file_paths (∅, duplicate_hashes))
  else duplicate_hashes.

Definition files_by_size (w : World) (root_dir : string) (min_size_mb : Z)
  : list (Z * list string) :=
  let min_size_bytes := min_size_mb * 1024 * 1024 in
  fold_left (size_walk_step w min_size_bytes) (os_walk w root_dir) [].

Definition find_duplicate_files (w : World) (root_dir hash_algorithm : string)
    (min_size_mb : Z) : gmap string (list string) :=
  fold_left (bucket_step w hash_algorithm) (files_by_size w root_dir min_size_mb) ∅.

(** *** Large files *)

(** [l[:limit]], also for a negative [limit]. *)
Definition slice_upto {A : Type} (l : list A) (limit : Z) : list A :=
  if 0 <=? limit then take (Z.to_nat limit) l
  else take (Z.to_nat (Z.of_nat (length l) + limit)) l.

Definition large_step (w : World) (min_size_bytes : Z) (dirpath : string)
    (large_files : list details) (filename : string) : list details :=
  let file_path := join dirpath filename in
  if isfile w file_path then
    match getsize w file_path with
    | Ok file_size =>
        if min_size_bytes <=? file_size then
          match get_file_details w file_path with
          | Some d => (large_files ++ [d])%list
          | None => large_files
          end
        else large_files
    | Raise _ => large_files
    end
  else large_files.

Definition large_walk_step (w : World) (min_size_bytes : Z)
    (large_files : list details) (entry : walk_entry) : list details :=
  let '(dirpath, _, filenames) := entry in
  if FileManager.readable_dir w dirpath
  then fold_left (large_step w min_size_bytes dirpath) filenames large_files
  else large_files.

(** [sort(key=lambda x: x['size'], reverse=True)]: stable, largest first. *)
Definition size_ge (x y : details) : bool := d_size y <=? d_size x.

Definition find_large_files (w : World) (root_dir : string) (min_size_mb limit : Z)
  : list details :=
  let min_size_bytes := min_size_mb * 1024 * 1024 in
  let large_files :=
    fold_left (large_walk_step w min_size_bytes) (os_walk w root_dir) [] in
  slice_upto (sorted_by size_ge large_files) limit.

End SmartFeatures.

(** ** Vocabulary of the specification *)

Module Spec.

Import OsPath Utils SmartFeatures.

(** The states of the history store the program produces by itself: the
    fresh store, an access, a read of the recent items, and a restart that
    loads the document a reachable state was saved as. *)
Inductive reachable : SmartFeatures.t -> Prop :=
  | reach_init (home : string) : reachable (init home)
  | reach_track (w : World) (s : SmartFeatures.t) (p : string) :
      reachable s -> reachable (snd (track_access w s p))
  | reach_recent (w : World) (s : SmartFeatures.t) :
      reachable s -> reachable (fst (get_recent_items w s))
  | reach_reload (w : World) (s s0 : SmartFeatures.t) :
      reachable s ->
      history_file w = Document {| doc_recent_files := Some (recent_files s);
                                   doc_frequent_items := Some (frequent_items s) |} ->
      reachable (_load_history w s0).

(** The bound and the absence of repetitions. *)
Definition history_inv (s : SmartFeatures.t) : Prop :=
  (length (recent_files s) <= 50)%nat /\ NoDup (recent_files s).

(** The paths the scanners look at, in traversal order: the file names of
    every walked directory that passes the read-access check. *)
Definition walked_files (w : World) (root_dir : string) : list string :=
  flat_map
    (fun entry : walk_entry =>
       let '(dirpath, _, filenames) := entry in
       if FileManager.readable_dir w dirpath then map (join dirpath) filenames
       else [])
    (os_walk w root_dir).

(** A regular file of at least [min_size_bytes] bytes. *)
Definition is_candidate (w : World) (min_size_bytes : Z) (p : string) : bool :=
  match os_stat w p with
  | Some st =>
      match st_kind st with
      | Regular => min_size_bytes <=? st_size st
      | _ => false
      end
  | None => false
  end.

Definition candidate_files (w : World) (root_dir : string) (min_size_mb : Z)
  : list string :=
  List.filter (is_candidate w (min_size_mb * 1024 * 1024)) (walked_files w root_dir).

(** The digest under which the detector files a path: the non-empty result
    of [get_file_hash] with the default block size. *)
Definition digest_of (w : World) (hash_algorithm p : string) : option string :=
  match FileManager.get_file_hash w p hash_algorithm 65536 with
  | Some h => if String.eqb h "" then None else Some h
  | None => None
  end.


Definition size_of (w : World) (p : string) : option Z :=
  st_size <$> os_stat w p.

(** The files of a given size and those of a given digest, in the order of
    the list they are taken from. *)
Definition size_bucket (w : World) (s : Z) (files : list string) : list string :=
  List.filter (fun p => bool_decide (size_of w p = Some s)) files.


Definition nonempty (l : list string) : option (list string) :=
  match l with [] => None | _ => Some l end.


(** Every group has two entries or more, all of them among [files] and of
    the digest the group is filed under. *)
Definition sound_groups (w : World) (hash_algorithm : string)
    (files : list string) (groups : gmap string (list string)) : Prop :=
  forall h ps,
    groups !! h = Some ps ->
    (2 <= length ps)%nat /\
    forall p, p ∈ ps -> p ∈ files /\ digest_of w hash_algorithm p = Some h.

(** [files_by_size] holds exactly the size buckets of [files]. *)
Definition buckets_of (w : World) (files : list string)
    (files_by_size : list (Z * list string)) : Prop :=
  NoDup (files_by_size.*1) /\
  forall s, (list_to_map files_by_size : gmap Z (list string)) !! s
            = nonempty (size_bucket w s files).


(** The outcome of the read loop on a whole file: [ValueError] at the first
    read for a block size below [-1]; otherwise the bytes handed to the
    hasher, which are all of the content for [read(-1)] and for a positive
    block size, and none of it for the block size 0. *)
Definition hashed_content (content : string) (block_size : Z) : result string :=
  if block_size <? -1 then Raise ValueError
  else Ok (if block_size =? 0 then "" else content).




End Spec.

(** ** Sample worlds *)

Module Samples.

Import OsPath Utils.

Definition MiB : Z := 1024 * 1024.

Definition dir_stat (mtime : Z) : stat_result :=
  {| st_kind := Directory; st_size := 4096; st_mtime := mtime |}.

Definition file_stat (size mtime : Z) : stat_result :=
  {| st_kind := Regular; st_size := size; st_mtime := mtime |}.

(** A world given by tables: the stat table, the directory listings, the
    walks and the file contents.  Every existing path is readable, the digest
    of a content is the content tagged with the algorithm. *)
Definition table_world
    (stats : list (string * stat_result))
    (listings : list (string * list string))
    (walks : list (string * list walk_entry))
    (contents : list (string * string))
    (history : history_file_state) (writable : bool) : World :=
  {| os_stat := fun p => assoc p stats;
     os_access_R := fun p => Ok (match assoc p stats with Some _ => true | None => false end);
     os_scandir := fun p =>
       match assoc p listings with
       | Some l => Ok l
       | None => Raise OSError
       end;
     os_walk := fun root => default [] (assoc root walks);
     read_bytes := fun p =>
       match assoc p contents with
       | Some c => Ok c
       | None => Raise PermissionError
       end;
     hexdigest := fun alg bytes => String.append alg (String ":" bytes);
     strftime := fun _ ts => pretty ts;
     now := 1700000000;
     fmt_2f := fun a b => pretty (a / b);
     history_file := history;
     history_writable := writable |}.

(** Directory [/d] with sub-directories [B] and [a] and the file [c.txt]. *)
Definition listing_world : World :=
  table_world
    [ ("/d", dir_stat 10); ("/d/B", dir_stat 11); ("/d/a", dir_stat 12);
      ("/d/c.txt", file_stat 5 13) ]
    [ ("/d", ["/d/c.txt"; "/d/a"; "/d/B"]); ("/d/B", []); ("/d/a", []) ]
    [ ("/d", [("/d", ["a"; "B"], ["c.txt"]); ("/d/a", [], []); ("/d/B", [], [])]) ]
    [ ("/d/c.txt", "hello") ]
    Missing true.

(** The same directory whose enumeration is refused. *)
Definition unlistable_world : World :=
  table_world
    [ ("/d", dir_stat 10) ] [] [] [] Missing true.

(** A tree with one file of 50 MiB and one of 150 MiB. *)
Definition large_world : World :=
  table_world
    [ ("/r", dir_stat 10); ("/r/small.bin", file_stat (50 * MiB) 11);
      ("/r/big.bin", file_stat (150 * MiB) 12) ]
    [ ("/r", ["/r/small.bin"; "/r/big.bin"]) ]
    [ ("/r", [("/r", [], ["small.bin"; "big.bin"])]) ]
    [] Missing true.

(** [/root] with [a.txt], [b.txt] and [d.txt] of equal content, and [c.txt] of
    the same size with another content. *)
Definition duplicates_world : World :=
  table_world
    [ ("/root", dir_stat 10); ("/root/a.txt", file_stat 3 11);
      ("/root/b.txt", file_stat 3 12); ("/root/c.txt", file_stat 3 13);
      ("/root/d.txt", file_stat 3 14) ]
    [ ("/root", ["/root/a.txt"; "/root/b.txt"; "/root/c.txt"; "/root/d.txt"]) ]
    [ ("/root", [("/root", [], ["a.txt"; "b.txt"; "c.txt"; "d.txt"])]) ]
    [ ("/root/a.txt", "xyz"); ("/root/b.txt", "xyz"); ("/root/c.txt", "abc");
      ("/root/d.txt", "xyz") ]
    Missing true.


(** A history of two visited paths, both still on disk. *)
Definition history_world : World :=
  table_world
    [ ("/d", dir_stat 10); ("/d/a", dir_stat 12); ("/d/c.txt", file_stat 5 13) ]
    [] [] [] Missing true.

Definition sample_history : SmartFeatures.t :=
  {| SmartFeatures.recent_files := ["/d/c.txt"; "/d/a"];
     SmartFeatures.frequent_items := <["/d/c.txt" := 2]> (<["/d/a" := 1]> ∅);
     SmartFeatures.file_manager := {| FileManager.current_path := "/d" |} |}.

End Samples.

(** ** utils.py: the SHA-256 helper *)

Module UtilsHash.

Import OsPath Utils.

(** The body of the [try] block of [calculate_file_hash]; the hasher is
    [hashlib.sha256()]. *)
Definition calculate_file_hash_try (w : World) (file_path : string)
    (block_size : Z) : result string :=
  content ← read_bytes w file_path;
  hashed ← FileManager.hashed_bytes (S (String.length content)) content block_size;
  Ok (hexdigest w "sha256" hashed).

Definition calculate_file_hash (w : World) (file_path : string)
    (block_size : Z) : option string :=
  try_except
    (h ← calculate_file_hash_try w file_path block_size; Ok (Some h))
    (fun _ => None).

End UtilsHash.

(** ** file_manager.py: navigation *)

Module Navigation.

Import OsPath Utils.

Section Dirname.

(** [os.path.dirname], which is [ntpath.dirname] or [posixpath.dirname] with
    the platform: the code that calls it is modelled for every such
    function. *)
Variable dirname : string -> string.

(** [FileManager.go_up]: the new state and the returned path. *)
Definition go_up (self : FileManager.t) : FileManager.t * string :=
  let parent_path := dirname (FileManager.current_path self) in
  if negb (String.eqb parent_path (FileManager.current_path self)) then
    ({| FileManager.current_path := parent_path |}, parent_path)
  else (self, FileManager.current_path self).

(** [n] calls of [go_up] in a row: the state after the last one. *)
Fixpoint go_up_times (n : nat) (self : FileManager.t) : FileManager.t :=
  match n with
  | O => self
  | S n' => go_up_times n' (fst (go_up self))
  end.

End Dirname.

(** [FileManager.change_directory]; [os.access] is called outside any [try]. *)
Definition change_directory (w : World) (self : FileManager.t) (path : string)
  : result (FileManager.t * (bool * option string)) :=
  let full_path :=
    if isabs path then path else join (FileManager.current_path self) path in
  if isdir w full_path then
    readable ← os_access_R w full_path;
    if (readable : bool) then
      Ok ({| FileManager.current_path := full_path |}, (true, None))
    else
      Ok (self, (false, Some (FileManager.quoted
                                "Lỗi quyền truy cập: Không có quyền đọc thư mục '"
                                full_path "'.")))
  else
    Ok (self, (false, Some (FileManager.quoted
                              "Đường dẫn không hợp lệ hoặc không tồn tại: '"
                              full_path "'."))).

End Navigation.

(** ** smart_features.py: frequent items and categories *)

Module SmartPanels.

Import OsPath Utils SmartFeatures.

(** Sort key of [get_frequent_items]: the count, largest first. *)
Definition count_ge (x y : string * Z) : bool := snd y <=? snd x.

(** The loop of [get_frequent_items] over the sorted items; [acc] is
    [frequent_items_details]. *)
Fixpoint frequent_loop (w : World) (limit : Z) (sorted_items : list (string * Z))
    (acc : list details) : list details :=
  match sorted_items with
  | [] => acc
  | (path, _) :: rest =>
      let acc :=
        match get_file_details w path with
        | Some d => (acc ++ [d])%list
        | None => acc
        end in
      if limit <=? Z.of_nat (length acc) then acc
      else frequent_loop w limit rest acc
  end.

(** [get_frequent_items].  The finite map does not record the insertion
    order of the dictionary: items of equal count come in the order of
    [map_to_list]. *)
Definition get_frequent_items (w : World) (self : SmartFeatures.t) (limit : Z)
  : SmartFeatures.t * list details :=
  let self := {| recent_files := recent_files self;
                 frequent_items := existing_counts w (frequent_items self);
                 file_manager := file_manager self |} in
  let sorted_items := sorted_by count_ge (map_to_list (frequent_items self)) in
  (self, frequent_loop w limit sorted_items []).

(** The branch of [categorize_files] an item takes: the key it is appended
    under. *)
Definition category_of (item : details) : string :=
  if d_is_dir item then "Thư mục"
  else
    let ext := lower (snd (splitext (d_name item))) in
    if str_in ext [".txt"; ".doc"; ".docx"; ".pdf"; ".odt"; ".rtf"; ".xls"; ".xlsx";
                   ".ppt"; ".pptx"; ".csv"] then "Tài liệu"
    else if str_in ext [".jpg"; ".jpeg"; ".png"; ".gif"; ".bmp"; ".svg"; ".ico";
                        ".webp"] then "Hình ảnh"
    else if str_in ext [".mp3"; ".wav"; ".flac"; ".aac"; ".ogg"; ".wma"] then "Âm thanh"
    else if str_in ext [".mp4"; ".avi"; ".mkv"; ".mov"; ".wmv"; ".flv"; ".webm"] then "Video"
    else if str_in ext [".zip"; ".rar"; ".7z"; ".tar.gz"; ".gz"; ".iso"] then "Lưu trữ & ISO"
    else if str_in ext [".exe"; ".msi"; ".bat"; ".cmd"; ".ps1"; ".vbs"; ".dll"; ".sys"]
    then "Thực thi & Hệ thống"
    else if str_in ext [".py"; ".js"; ".html"; ".css"; ".json"; ".xml"; ".java"; ".c";
                        ".cpp"; ".cs"; ".php"; ".go"; ".rb"; ".swift"]
    then "Mã nguồn & Cấu hình"
    else if str_in ext [".log"; ".tmp"; ".bak"] then "Tệp tạm & Nhật ký"
    else "Khác".

(** [categories[key].append(item)] on a [defaultdict(list)]. *)
Definition categories_append (categories : gmap string (list details))
    (item : details) : gmap string (list details) :=
  <[category_of item :=
      (default [] (categories !! category_of item) ++ [item])%list]> categories.

Definition categorize_files (file_list : list details) : gmap string (list details) :=
  fold_left categories_append file_list ∅.

Definition category_names : list string :=
  ["Thư mục"; "Tài liệu"; "Hình ảnh"; "Âm thanh"; "Video"; "Lưu trữ & ISO";
   "Thực thi & Hệ thống"; "Mã nguồn & Cấu hình"; "Tệp tạm & Nhật ký"; "Khác"].


End SmartPanels.

(** ** hse_app.py: the version test *)

Module HSEApp.

(** [s.split(c)] for a one-character separator. *)
Fixpoint split_char (c : ascii) (s : string) : list string :=
  match s with
  | EmptyString => [EmptyString]
  | String a s' =>
      if Ascii.eqb a c then EmptyString :: split_char c s'
      else match split_char c s' with
           | [] => [String a EmptyString]
           | x :: xs => String a x :: xs
           end
  end.

(** The white space [int] strips, among the code points below 256: tab to
    carriage return, the space, [U+0085] and [U+00A0]; and the decimal
    digits. *)
Definition is_space (a : ascii) : bool :=
  let n := nat_of_ascii a in
  (((9 <=? n) && (n <=? 13)) || (n =? 32) || (n =? 133) || (n =? 160))%nat%bool.

Definition digit_of (a : ascii) : option Z :=
  let n := nat_of_ascii a in
  if ((48 <=? n) && (n <=? 57))%nat%bool then Some (Z.of_nat n - 48) else None.

Fixpoint lstrip (l : list ascii) : list ascii :=
  match l with
  | a :: l' => if is_space a then lstrip l' else l
  | [] => []
  end.

Definition strip (l : list ascii) : list ascii :=
  rev (lstrip (rev (lstrip l))).

(** The digits of an integer literal: one digit or more, single underscores
    allowed between digits. *)
Fixpoint digits_value (l : list ascii) (acc : Z) (after_digit : bool) : option Z :=
  match l with
  | [] => if after_digit then Some acc else None
  | a :: l' =>
      match digit_of a with
      | Some d => digits_value l' (10 * acc + d) true
      | None =>
          if (Ascii.eqb a "_"%char && after_digit)%bool
          then digits_value l' acc false
          else None
      end
  end.

(** [int(s)] in base 10. *)
Definition py_int (s : string) : result Z :=
  let body := strip (list_ascii_of_string s) in
  let signed :=
    match body with
    | a :: rest =>
        if Ascii.eqb a "-"%char then Z.opp <$> digits_value rest 0 false
        else if Ascii.eqb a "+"%char then digits_value rest 0 false
        else digits_value body 0 false
    | [] => None
    end in
  match signed with
  | Some z => Ok z
  | None => Raise ValueError
  end.

(** [[int(p) for p in parts]]. *)
Fixpoint parse_parts (parts : list string) : result (list Z) :=
  match parts with
  | [] => Ok []
  | p :: rest =>
      z ← py_int p;
      zs ← parse_parts rest;
      Ok (z :: zs)
  end.

(** Comparison [a > b] of two lists of integers. *)
Fixpoint list_gt (a b : list Z) : bool :=
  match a, b with
  | [], _ => false
  | _ :: _, [] => true
  | x :: a', y :: b' => if x =? y then list_gt a' b' else y <? x
  end.

Definition _is_new_version_available (local_v remote_v : string) : result bool :=
  local_parts ← parse_parts (split_char "."%char local_v);
  remote_parts ← parse_parts (split_char "."%char remote_v);
  let max_len := Nat.max (length local_parts) (length remote_parts) in
  let local_parts :=
    (local_parts ++ replicate (max_len - length local_parts) 0)%list in
  let remote_parts :=
    (remote_parts ++ replicate (max_len - length remote_parts) 0)%list in
  Ok (list_gt remote_parts local_parts).

(** Component [i] of a version, a missing component counting as 0. *)
Definition component (v : list Z) (i : nat) : Z := nth i v 0.

(** [r] is newer than [l]: at the first component where they differ, [r] has
    the larger number. *)
Definition newer (l r : list Z) : Prop :=
  exists i, (forall j, (j < i)%nat -> component l j = component r j) /\
            component l i < component r i.

End HSEApp.

(** ** More sample worlds *)

Module MoreSamples.

Import Samples.

(** The world of [history_world] after [/d/a] was removed. *)
Definition vanished_world : World :=
  table_world
    [ ("/d", dir_stat 10); ("/d/c.txt", file_stat 5 13) ]
    [] [] [] Missing true.


(** Three regular files of three different sizes. *)
Definition distinct_sizes_world : World :=
  table_world
    [ ("/u", dir_stat 10); ("/u/a", file_stat 1 11); ("/u/b", file_stat 2 12);
      ("/u/c", file_stat 3 13) ]
    [ ("/u", ["/u/a"; "/u/b"; "/u/c"]) ]
    [ ("/u", [("/u", [], ["a"; "b"; "c"])]) ]
    [ ("/u/a", "x"); ("/u/b", "xx"); ("/u/c", "xxx") ]
    Missing true.

End MoreSamples.

(** ** smart_features.py: contextual suggestions *)

Module Suggestions.

Import OsPath Utils SmartFeatures.

#[export] Instance details_eq_dec : EqDecision details.
Proof. solve_decision. Defined.

(** The two loops over [self.frequent_items.items()]: [keep path] is the
    test of the loop, the answer of [get_file_details] is appended as it is,
    [None] included.  The finite map is read in the order of [map_to_list]. *)
Definition append_details (w : World) (keep : string -> bool)
    (items : list (string * Z)) (suggestions : list (option details))
  : list (option details) :=
  fold_left
    (fun acc (kv : string * Z) =>
       if keep (fst kv) then (acc ++ [get_file_details w (fst kv)])%list else acc)
    items suggestions.

(** [ext_counts[ext] += 1] on a [defaultdict(int)], in insertion order. *)
Fixpoint ext_incr (ext : string) (ext_counts : list (string * Z)) : list (string * Z) :=
  match ext_counts with
  | [] => [(ext, 1)]
  | (k, c) :: rest =>
      if String.eqb ext k then (k, c + 1) :: rest else (k, c) :: ext_incr ext rest
  end.

(** [max(ext_counts, key=ext_counts.get)]: the first key of largest count. *)
Fixpoint max_key (ext_counts : list (string * Z)) (best : string * Z) : string :=
  match ext_counts with
  | [] => fst best
  | (k, c) :: rest =>
      if snd best <? c then max_key rest (k, c) else max_key rest best
  end.

(** [item not in suggestions]. *)
Definition not_in (item : details) (suggestions : list (option details)) : bool :=
  negb (existsb (fun s => bool_decide (s = Some item)) suggestions).

(** The loop over [current_dir_items]. *)
Definition append_same_ext (most_common_ext : string) (current_dir_items : list details)
    (suggestions : list (option details)) : list (option details) :=
  fold_left
    (fun acc item =>
       if (negb (d_is_dir item)
           && String.eqb (lower (snd (splitext (d_name item)))) most_common_ext
           && not_in item acc)%bool
       then (acc ++ [Some item])%list else acc)
    current_dir_items suggestions.

(** [d[key] = value] on a dictionary in insertion order. *)
Fixpoint dict_set (key : string) (value : details) (d : list (string * details))
  : list (string * details) :=
  match d with
  | [] => [(key, value)]
  | (k, v) :: rest =>
      if String.eqb key k then (k, value) :: rest else (k, v) :: dict_set key value rest
  end.

(** [{item['path']: item for item in suggestions}]: subscripting [None]
    raises [TypeError]. *)
Fixpoint unique_by_path (suggestions : list (option details))
    (acc : list (string * details)) : result (list (string * details)) :=
  match suggestions with
  | [] => Ok acc
  | None :: _ => Raise TypeError
  | Some item :: rest => unique_by_path rest (dict_set (d_path item) item acc)
  end.

Section Dirname.

(** [os.path.dirname] of the platform. *)
Variable dirname : string -> string.

Definition get_contextual_suggestions (w : World) (self : SmartFeatures.t)
    (current_path : string) (limit : Z)
  : SmartFeatures.t * result (list details) :=
  let items := map_to_list (frequent_items self) in
  (* 1. frequently used sub-directories of the current path *)
  let suggestions :=
    append_details w
      (fun path => (isdir w path
                    && String.eqb (dirname path) current_path)%bool)
      items [] in
  (* 2. files of the most common extension among the recent ones *)
  let '(self, recent_items) := get_recent_items w self in
  let current_dir_files :=
    List.filter
      (fun item => (String.eqb (dirname (d_path item)) current_path
                    && negb (d_is_dir item))%bool)
      recent_items in
  let ext_counts :=
    fold_left (fun acc item => ext_incr (lower (snd (splitext (d_name item)))) acc)
      current_dir_files [] in
  let '(self, suggestions) :=
    match current_dir_files, ext_counts with
    | _ :: _, first :: rest =>
        let most_common_ext := max_key rest first in
        let '(fm, (current_dir_items, _)) :=
          FileManager.list_directory w (file_manager self) current_path in
        ({| recent_files := recent_files self;
            frequent_items := frequent_items self;
            file_manager := fm |},
         append_same_ext most_common_ext current_dir_items suggestions)
    | _, _ => (self, suggestions)
    end in
  (* 3. frequently used sibling directories *)
  let parent_of_current := dirname current_path in
  let suggestions :=
    if (negb (String.eqb parent_of_current "")
        && negb (String.eqb parent_of_current current_path))%bool
    then
      append_details w
        (fun path => (isdir w path
                      && String.eqb (dirname path) parent_of_current
                      && negb (String.eqb path current_path))%bool)
        items suggestions
    else suggestions in
  (self,
   unique ← unique_by_path suggestions [];
   let sorted_suggestions :=
     sorted_by
       (fun x y => default 0 (frequent_items self !! d_path y)
                   <=? default 0 (frequent_items self !! d_path x))
       (map snd unique) in
   Ok (slice_upto sorted_suggestions limit)).

(** A counted directory that lies in [current_path], or beside it. *)
Definition suggested (w : World) (self : SmartFeatures.t) (current_path p : string)
  : Prop :=
  is_Some (frequent_items self !! p) /\ isdir w p = true /\
  (dirname p = current_path \/
   (dirname current_path <> "" /\
    dirname current_path <> current_path /\
    dirname p = dirname current_path /\
    p <> current_path)).

End Dirname.

End Suggestions.

(** * Properties *)

Import OsPath Utils Samples FileManager SmartFeatures Spec.

(** ** The metadata resolver *)

Lemma getattr_module_fromtimestamp :
  getattr Utils.datetime "fromtimestamp" = Raise AttributeError.
Proof. reflexivity. Qed.

(** The spelling used by [smart_features.py], [datetime.datetime.fromtimestamp],
    does resolve. *)
Lemma getattr_class_fromtimestamp :
  (cls ← getattr DatetimeModule "datetime"; getattr cls "fromtimestamp")
  = Ok FromTimestamp.
Proof. reflexivity. Qed.

Lemma get_file_details_try_existing (w : World) (p : string) :
  exists_ w p = true -> get_file_details_try w p = Raise AttributeError.
Proof.
  intros Hex. unfold get_file_details_try, exists_, isdir, getsize, getmtime in *.
  destruct (os_stat w p) as [st|]; [|discriminate].
  simpl. destruct (st_kind st); reflexivity.
Qed.

Lemma get_file_details_None (w : World) (p : string) :
  get_file_details w p = None.
Proof.
  unfold get_file_details.
  destruct (exists_ w p) eqn:Hex.
  - rewrite get_file_details_try_existing by assumption. reflexivity.
  - unfold get_file_details_try. rewrite Hex. reflexivity.
Qed.

(** C1.  On a path that exists and can be statted, the resolver does not
    return a descriptor: the lookup of [fromtimestamp] on the [datetime]
    module raises [AttributeError] inside the [try] block, and the handler
    turns it into [None]. *)
Theorem get_file_details_existing_path (w : World) (p : string) :
  exists_ w p = true ->
  get_file_details_try w p = Raise AttributeError /\ get_file_details w p = None.
Proof.
  intros Hex. split.
  - apply get_file_details_try_existing, Hex.
  - apply get_file_details_None.
Qed.

Lemma get_file_details_existing_path_witness :
  exists_ listing_world "/d/c.txt" = true /\
  get_file_details_try listing_world "/d/c.txt" = Raise AttributeError /\
  get_file_details listing_world "/d/c.txt" = None.
Proof.
  split; [reflexivity|].
  apply (get_file_details_existing_path listing_world "/d/c.txt"). reflexivity.
Defined.

(** ** Sorting *)

Lemma ascii_compare_trans_le (a b c : ascii) :
  Ascii.compare a b <> Gt -> Ascii.compare b c <> Gt -> Ascii.compare a c <> Gt.
Proof.
  unfold Ascii.compare. rewrite !N.compare_le_iff. lia.
Qed.

Lemma string_compare_trans_le (s1 : string) :
  forall s2 s3, String.compare s1 s2 <> Gt -> String.compare s2 s3 <> Gt ->
                String.compare s1 s3 <> Gt.
Proof.
  induction s1 as [|a s1 IH]; intros [|b s2] [|c s3]; simpl; try congruence.
  unfold Ascii.compare.
  destruct (N.compare_spec (N_of_ascii a) (N_of_ascii b)) as [Hab|Hab|Hab];
    destruct (N.compare_spec (N_of_ascii b) (N_of_ascii c)) as [Hbc|Hbc|Hbc];
    destruct (N.compare_spec (N_of_ascii a) (N_of_ascii c)) as [Hac|Hac|Hac];
    try congruence; try lia.
  apply IH.
Qed.

Lemma string_leb_trans (s1 s2 s3 : string) :
  String.leb s1 s2 = true -> String.leb s2 s3 = true -> String.leb s1 s3 = true.
Proof.
  unfold String.leb. intros H12 H23.
  pose proof (string_compare_trans_le s1 s2 s3) as H.
  destruct (String.compare s1 s2), (String.compare s2 s3), (String.compare s1 s3);
    try reflexivity; try discriminate; exfalso; apply H; congruence.
Qed.

Lemma listing_le_total (x y : details) :
  listing_le x y = true \/ listing_le y x = true.
Proof.
  unfold listing_le.
  destruct (d_is_dir x), (d_is_dir y); simpl; auto using String.leb_total.
Qed.

Lemma listing_le_trans (x y z : details) :
  listing_le x y = true -> listing_le y z = true -> listing_le x z = true.
Proof.
  unfold listing_le.
  destruct (d_is_dir x), (d_is_dir y), (d_is_dir z); simpl;
    eauto using string_leb_trans; discriminate.
Qed.

Section Sorting.
Context {A : Type} (le : A -> A -> bool).
Hypothesis le_total : forall x y, le x y = true \/ le y x = true.
Hypothesis le_trans : forall x y z, le x y = true -> le y z = true -> le x z = true.

Lemma insert_sorted_perm (x : A) (l : list A) :
  Permutation (insert_sorted le x l) (x :: l).
Proof.
  induction l as [|y l IH]; simpl; [reflexivity|].
  destruct (le x y); [reflexivity|].
  rewrite IH. apply perm_swap.
Qed.

Lemma sorted_by_perm (l : list A) : Permutation (sorted_by le l) l.
Proof.
  induction l as [|x l IH]; simpl; [reflexivity|].
  rewrite insert_sorted_perm. by constructor.
Qed.

Lemma insert_sorted_strongly (x : A) (l : list A) :
  StronglySorted (fun a b => le a b = true) l ->
  StronglySorted (fun a b => le a b = true) (insert_sorted le x l).
Proof.
  induction 1 as [|y l Hs IH Hy]; simpl.
  - repeat constructor.
  - destruct (le x y) eqn:Hxy.
    + constructor; [by constructor|].
      constructor; [exact Hxy|].
      eapply Forall_impl; [exact Hy|]. intros z Hz. simpl in Hz. eauto.
    + constructor; [exact IH|].
      rewrite insert_sorted_perm. constructor; [|exact Hy].
      destruct (le_total x y); congruence.
Qed.

Lemma sorted_by_strongly (l : list A) :
  StronglySorted (fun a b => le a b = true) (sorted_by le l).
Proof.
  induction l as [|x l IH]; simpl; [constructor|].
  by apply insert_sorted_strongly.
Qed.
End Sorting.

(** ** Directory listing *)

Lemma collect_details_nil (w : World) (entries : list string) :
  collect_details w entries = [].
Proof.
  induction entries as [|e entries IH]; simpl; [reflexivity|].
  rewrite get_file_details_None. exact IH.
Qed.

Lemma collect_details_length (w : World) (entries : list string) :
  (length (collect_details w entries) <= length entries)%nat.
Proof.
  induction entries as [|e entries IH]; simpl; [lia|].
  destruct (get_file_details w e); simpl; lia.
Qed.

Lemma strongly_sorted_lookup {A : Type} (R : A -> A -> Prop) (l : list A) :
  StronglySorted R l ->
  forall (i j : nat) (x y : A),
    (i < j)%nat -> l !! i = Some x -> l !! j = Some y -> R x y.
Proof.
  induction 1 as [|a l Hs IH Ha]; intros i j x y Hij Hi Hj.
  - rewrite lookup_nil in Hi. discriminate.
  - destruct j as [|j]; [lia|]. simpl in Hj.
    destruct i as [|i]; simpl in Hi.
    + injection Hi as <-. rewrite Forall_forall in Ha.
      apply Ha. eapply list_elem_of_lookup_2, Hj.
    + apply (IH i j); [lia|assumption..].
Qed.

Lemma list_directory_items (w : World) (self : FileManager.t) (path : string) :
  let target_path :=
    if isabs path then path else join (current_path self) path in
  fst (snd (list_directory w self path)) = [] \/
  exists entries : list string,
    os_scandir w target_path = Ok entries /\
    fst (snd (list_directory w self path))
    = sorted_by listing_le (collect_details w entries).
Proof.
  cbv zeta. unfold list_directory.
  destruct (negb (exists_ w _)); [by left|].
  destruct (negb (isdir w _)); [by left|].
  destruct (os_access_R w _) as [[|]|e]; [|by left..].
  destruct (os_scandir w _) as [entries|e] eqn:Hscan.
  - right. by exists entries.
  - left. by destruct (is_PermissionError e).
Qed.

(** The sort key on the names of the scenario of the specification: with
    the names in lower case, the directory [a] comes in front of the
    directory [B], and both in front of the file [c.txt]. *)
Lemma listing_key_a_B_c (dB da dc : details) (l : list details) :
  d_name dB = "B" -> d_is_dir dB = true ->
  d_name da = "a" -> d_is_dir da = true ->
  d_name dc = "c.txt" -> d_is_dir dc = false ->
  Permutation l [dB; da; dc] ->
  sorted_by listing_le l = [da; dB; dc].
Proof.
  intros HB HBd Ha Had Hc Hcd Hperm.
  assert (Hcases : l = [dB; da; dc] \/ l = [dB; dc; da] \/ l = [da; dB; dc] \/
                   l = [da; dc; dB] \/ l = [dc; dB; da] \/ l = [dc; da; dB]).
  { apply Permutation_sym, permutations_Permutation in Hperm.
    cbn in Hperm. rewrite !elem_of_cons, elem_of_nil in Hperm. tauto. }
  assert (Hab : listing_le da dB = true)
    by (unfold listing_le; rewrite Ha, HB, Had, HBd; reflexivity).
  assert (Hba : listing_le dB da = false)
    by (unfold listing_le; rewrite Ha, HB, Had, HBd; reflexivity).
  assert (Hac : listing_le da dc = true)
    by (unfold listing_le; rewrite Had, Hcd; reflexivity).
  assert (Hca : listing_le dc da = false)
    by (unfold listing_le; rewrite Had, Hcd; reflexivity).
  assert (Hbc : listing_le dB dc = true)
    by (unfold listing_le; rewrite HBd, Hcd; reflexivity).
  assert (Hcb : listing_le dc dB = false)
    by (unfold listing_le; rewrite HBd, Hcd; reflexivity).
  destruct Hcases as [ -> | [ -> | [ -> | [ -> | [ -> | -> ] ] ] ] ]; simpl;
    rewrite ?Hab, ?Hba, ?Hac, ?Hca, ?Hbc, ?Hcb; simpl;
    rewrite ?Hab, ?Hba, ?Hac, ?Hca, ?Hbc, ?Hcb; reflexivity.
Qed.

(** C3.  [list_directory] returns no descriptor for the entries of a
    directory.  When the target exists, is a directory, passes the read
    check and is enumerated by [os.scandir], the call moves to the target and
    returns the empty listing without an error message, whatever the entries
    are: each of them is dropped when the resolver answers [None]. *)
Theorem list_directory_drops_entries (w : World) (self : FileManager.t)
    (path : string) (entries : list string) :
  let target_path :=
    if isabs path then path else join (current_path self) path in
  exists_ w target_path = true ->
  isdir w target_path = true ->
  os_access_R w target_path = Ok true ->
  os_scandir w target_path = Ok entries ->
  list_directory w self path = ({| current_path := target_path |}, ([], None)).
Proof.
  cbv zeta. intros Hex Hdir Hacc Hscan. unfold list_directory.
  rewrite Hex, Hdir, Hacc, Hscan. cbn [negb].
  by rewrite collect_details_nil.
Qed.

(** The scenario of the specification: the directory [/d] holds the
    directories [B] and [a] and the file [c.txt], and its listing is empty. *)
Lemma list_directory_drops_entries_witness :
  os_scandir listing_world "/d" = Ok ["/d/c.txt"; "/d/a"; "/d/B"] /\
  isdir listing_world "/d/B" = true /\
  isdir listing_world "/d/a" = true /\
  isfile listing_world "/d/c.txt" = true /\
  list_directory listing_world {| current_path := "/" |} "/d"
  = ({| current_path := "/d" |}, ([], None)).
Proof.
  repeat (split; [reflexivity|]).
  apply (list_directory_drops_entries listing_world {| current_path := "/" |} "/d"
           ["/d/c.txt"; "/d/a"; "/d/B"]); reflexivity.
Defined.

(** ** Large files *)

(** C4.  In the scenario of the specification (files of 50 MiB and 150 MiB,
    threshold 100 MiB) the scan finds the larger file, a regular file above
    the threshold, but returns no descriptor for it. *)
Theorem find_large_files_scenario_empty :
  os_walk large_world "/r" = [("/r", [], ["small.bin"; "big.bin"])] /\
  isfile large_world "/r/big.bin" = true /\
  getsize large_world "/r/big.bin" = Ok (150 * 1024 * 1024) /\
  find_large_files large_world "/r" 100 50 = [].
Proof. repeat split; reflexivity. Qed.

(** ** Content digests *)

Lemma take_drop_str (n : nat) (s : string) :
  String.append (take_str n s) (drop_str (String.length (take_str n s)) s) = s.
Proof.
  revert s. induction n as [|n IH]; intros [|a s]; simpl; try reflexivity.
  change (String a (String.append (take_str n s)
                      (drop_str (String.length (take_str n s)) s)) = String a s).
  f_equal. apply IH.
Qed.

Lemma drop_str_length (n : nat) (s : string) :
  String.length (drop_str n s) = (String.length s - n)%nat.
Proof.
  revert s. induction n as [|n IH]; intros [|a s]; simpl; try reflexivity.
  apply IH.
Qed.

(** With a positive block size and fuel beyond the length of the file, the
    read loop hands the whole content to the hasher. *)
Lemma f_read_positive (rest : string) (block_size : Z) :
  0 < block_size -> f_read rest block_size = Ok (take_str (Z.to_nat block_size) rest).
Proof.
  intros Hbs. unfold f_read.
  destruct (Z.ltb_spec block_size (-1)) as [?|_]; [lia|].
  destruct (Z.ltb_spec block_size 0) as [?|_]; [lia|reflexivity].
Qed.

Lemma hashed_bytes_all (block_size : Z) (fuel : nat) :
  0 < block_size ->
  forall rest, (String.length rest < fuel)%nat ->
               hashed_bytes fuel rest block_size = Ok rest.
Proof.
  intros Hbs. induction fuel as [|fuel IH]; intros rest Hlen; [lia|].
  cbn [hashed_bytes]. rewrite f_read_positive by exact Hbs.
  destruct (Z.to_nat block_size) as [|n] eqn:Hn; [lia|].
  destruct rest as [|a rest]; [reflexivity|].
  cbn [mbind result_bind].
  assert (Hblock : String.eqb (take_str (S n) (String a rest)) "" = false)
    by reflexivity.
  rewrite Hblock, IH.
  - cbn [mbind result_bind]. f_equal. apply take_drop_str.
  - rewrite drop_str_length. simpl in *. lia.
Qed.

Lemma drop_str_all (s : string) : drop_str (String.length s) s = "".
Proof. induction s as [|a s IH]; [reflexivity|exact IH]. Qed.

Lemma append_empty_r (s : string) : String.append s "" = s.
Proof.
  induction s as [|a s IH]; [reflexivity|].
  change (String a (String.append s "") = String a s). by rewrite IH.
Qed.

Lemma hashed_bytes_empty (fuel : nat) (block_size : Z) :
  -1 <= block_size -> hashed_bytes fuel "" block_size = Ok "".
Proof.
  intros Hbs. destruct fuel as [|fuel]; [reflexivity|].
  cbn [hashed_bytes]. unfold f_read.
  destruct (Z.ltb_spec block_size (-1)) as [?|_]; [lia|].
  destruct (block_size <? 0); [reflexivity|].
  by destruct (Z.to_nat block_size).
Qed.

Lemma hashed_bytes_content (content : string) (block_size : Z) :
  hashed_bytes (S (String.length content)) content block_size
  = hashed_content content block_size.
Proof.
  unfold hashed_content.
  destruct (Z.ltb_spec block_size (-1)) as [Hlow|Hge].
  - cbn [hashed_bytes]. unfold f_read.
    destruct (Z.ltb_spec block_size (-1)) as [_|?]; [reflexivity|lia].
  - destruct (Z.eqb_spec block_size 0) as [->|Hne].
    + by destruct content.
    + destruct (Z.lt_trichotomy block_size 0) as [Hneg|[?|Hpos]]; [|lia|].
      * cbn [hashed_bytes]. unfold f_read.
        destruct (Z.ltb_spec block_size (-1)) as [?|_]; [lia|].
        destruct (Z.ltb_spec block_size 0) as [_|?]; [|lia].
        destruct content as [|a content]; [reflexivity|].
        cbn [mbind result_bind].
        assert (Hblock : String.eqb (String a content) "" = false) by reflexivity.
        rewrite Hblock, drop_str_all, hashed_bytes_empty by exact Hge.
        cbn [mbind result_bind]. f_equal. apply append_empty_r.
      * apply hashed_bytes_all; lia.
Qed.

Lemma get_file_hash_try_supported (w : World) (file_path alg : string) (block_size : Z) :
  alg = "md5" \/ alg = "sha1" \/ alg = "sha256" ->
  get_file_hash_try w file_path alg block_size
  = (content ← read_bytes w file_path;
     hashed ← hashed_content content block_size;
     Ok (hexdigest w alg hashed)).
Proof.
  intros Halg. unfold get_file_hash_try.
  assert (Hhasher : (if String.eqb alg "md5" then Ok "md5"
                     else if String.eqb alg "sha1" then Ok "sha1"
                     else if String.eqb alg "sha256" then Ok "sha256"
                     else Raise ValueError) = Ok alg)
    by (destruct Halg as [->|[->| ->]]; reflexivity).
  rewrite Hhasher. cbn [mbind result_bind].
  destruct (read_bytes w file_path) as [content|e]; [|reflexivity].
  cbn [mbind result_bind]. by rewrite hashed_bytes_content.
Qed.

Lemma get_file_hash_md5 (w : World) (file_path content : string) :
  isfile w file_path = true ->
  read_bytes w file_path = Ok content ->
  get_file_hash w file_path "md5" 65536 = Some (hexdigest w "md5" content).
Proof.
  intros Hfile Hread. unfold get_file_hash.
  rewrite Hfile, get_file_hash_try_supported, Hread by auto. reflexivity.
Qed.

(** C8.  With an algorithm other than [md5], [sha1] and [sha256],
    [get_file_hash] returns [None] on every path; on a regular file the [try]
    block raises [ValueError], which the handler of the function absorbs. *)
Theorem get_file_hash_unsupported (w : World) (file_path alg : string) (block_size : Z) :
  alg <> "md5" -> alg <> "sha1" -> alg <> "sha256" ->
  get_file_hash_try w file_path alg block_size = Raise ValueError /\
  get_file_hash w file_path alg block_size = None.
Proof.
  intros H1 H2 H3.
  apply String.eqb_neq in H1, H2, H3.
  assert (Htry : get_file_hash_try w file_path alg block_size = Raise ValueError).
  { unfold get_file_hash_try. rewrite H1, H2, H3. reflexivity. }
  split; [exact Htry|].
  unfold get_file_hash. rewrite Htry.
  destruct (isfile w file_path); reflexivity.
Qed.

Lemma get_file_hash_unsupported_witness :
  isfile duplicates_world "/root/a.txt" = true /\
  get_file_hash_try duplicates_world "/root/a.txt" "sha512" 65536 = Raise ValueError /\
  get_file_hash duplicates_world "/root/a.txt" "sha512" 65536 = None.
Proof.
  split; [reflexivity|].
  apply (get_file_hash_unsupported duplicates_world "/root/a.txt" "sha512" 65536);
    discriminate.
Defined.

(** ** The current directory *)

(** C9.  When the target exists, is a directory and passes the read-access
    check, [list_directory] leaves [current_path] set to the target, and this
    also when the enumeration raises, in which case the listing is empty and
    an error message is returned. *)
Theorem list_directory_sets_current_path (w : World) (self : FileManager.t) (path : string) :
  let target_path :=
    if isabs path then path else join (current_path self) path in
  exists_ w target_path = true ->
  isdir w target_path = true ->
  os_access_R w target_path = Ok true ->
  current_path (fst (list_directory w self path)) = target_path /\
  (forall e, os_scandir w target_path = Raise e ->
     current_path (fst (list_directory w self path)) = target_path /\
     fst (snd (list_directory w self path)) = [] /\
     is_Some (snd (snd (list_directory w self path)))).
Proof.
  cbv zeta. intros Hex Hdir Hacc.
  unfold list_directory. rewrite Hex, Hdir, Hacc. simpl.
  split.
  - destruct (os_scandir w _) as [entries|e]; [reflexivity|].
    destruct (is_PermissionError e); reflexivity.
  - intros e ->. destruct (is_PermissionError e); simpl; eauto.
Qed.

Lemma list_directory_sets_current_path_witness :
  os_scandir unlistable_world "/d" = Raise OSError /\
  current_path (fst (list_directory unlistable_world {| current_path := "/" |} "d")) = "/d" /\
  fst (snd (list_directory unlistable_world {| current_path := "/" |} "d")) = [].
Proof.
  split; [reflexivity|].
  destruct (list_directory_sets_current_path unlistable_world {| current_path := "/" |} "d")
    as [_ H]; try reflexivity.
  destruct (H OSError) as (H1 & H2 & _); [reflexivity|].
  split; assumption.
Defined.

(** ** The access history *)

Lemma list_in_spec (x : string) (l : list string) :
  list_in x l = true <-> x ∈ l.
Proof.
  unfold list_in. rewrite existsb_exists. split.
  - intros (y & Hy & Heq). apply String.eqb_eq in Heq. subst.
    by apply list_elem_of_In.
  - intros Hx. exists x. split; [by apply list_elem_of_In|apply String.eqb_refl].
Qed.

Lemma list_remove_length (x : string) (l : list string) :
  x ∈ l -> S (length (list_remove x l)) = length l.
Proof.
  induction l as [|y l IH]; intros Hx.
  - by apply elem_of_nil in Hx.
  - simpl. destruct (String.eqb_spec x y) as [->|Hne]; [reflexivity|].
    simpl. f_equal. apply IH. apply elem_of_cons in Hx as [?|?]; congruence.
Qed.

Lemma list_remove_subset (x y : string) (l : list string) :
  y ∈ list_remove x l -> y ∈ l.
Proof.
  induction l as [|z l IH]; simpl; [done|].
  destruct (String.eqb_spec x z) as [->|Hne].
  - intros ?. by right.
  - rewrite !elem_of_cons. intros [?|?]; auto.
Qed.

Lemma list_remove_NoDup (x : string) (l : list string) :
  NoDup l -> NoDup (list_remove x l) /\ x ∉ list_remove x l.
Proof.
  induction 1 as [|y l Hy Hl IH]; simpl.
  - split; [constructor|apply not_elem_of_nil].
  - destruct (String.eqb_spec x y) as [->|Hne]; [by split|].
    destruct IH as [IH1 IH2]. split.
    + constructor; [|exact IH1]. intros Hin. apply Hy. by eapply list_remove_subset.
    + rewrite elem_of_cons. intros [?|?]; congruence.
Qed.

Lemma existing_length (w : World) (l : list string) :
  (length (existing w l) <= length l)%nat.
Proof. apply List.filter_length_le. Qed.

Lemma existing_NoDup (w : World) (l : list string) :
  NoDup l -> NoDup (existing w l).
Proof.
  rewrite !NoDup_ListNoDup. apply List.NoDup_filter.
Qed.

Lemma existing_id (w : World) (l : list string) :
  Forall (fun p => exists_ w p = true) l -> existing w l = l.
Proof.
  induction 1 as [|p l Hp Hl IH]; simpl; [reflexivity|].
  rewrite Hp. f_equal. exact IH.
Qed.

Lemma existing_counts_id (w : World) (m : gmap string Z) :
  (forall p c, m !! p = Some c -> exists_ w p = true) -> existing_counts w m = m.
Proof.
  intros Hm. unfold existing_counts. apply map_filter_id.
  intros p c Hpc. simpl. eauto.
Qed.

Lemma track_access_recent (w : World) (s : SmartFeatures.t) (p : string) :
  exists_ w p = true ->
  recent_files (snd (track_access w s p))
  = take 50 (p :: (if list_in p (recent_files s)
                   then list_remove p (recent_files s) else recent_files s)).
Proof. intros Hex. unfold track_access. rewrite Hex. reflexivity. Qed.

Lemma track_access_inv (w : World) (s : SmartFeatures.t) (p : string) :
  history_inv s -> history_inv (snd (track_access w s p)).
Proof.
  intros [Hlen Hnd]. destruct (exists_ w p) eqn:Hex.
  - unfold history_inv. rewrite track_access_recent by exact Hex. split.
    + rewrite length_take. lia.
    + eapply sublist_NoDup; [|apply sublist_take].
      destruct (list_in p (recent_files s)) eqn:Hin.
      * destruct (list_remove_NoDup p _ Hnd). by constructor.
      * constructor; [|exact Hnd]. rewrite <- list_in_spec. congruence.
  - unfold track_access. rewrite Hex. simpl. by split.
Qed.

Lemma reachable_inv (s : SmartFeatures.t) : reachable s -> history_inv s.
Proof.
  induction 1 as [home|w s p _ IH|w s _ IH|w s s0 _ IH Hfile].
  - split; simpl; [lia|constructor].
  - by apply track_access_inv.
  - destruct IH as [Hlen Hnd]. split; simpl.
    + pose proof (existing_length w (recent_files s)). lia.
    + by apply existing_NoDup.
  - destruct IH as [Hlen Hnd].
    unfold _load_history, history_exists, json_load. rewrite Hfile. simpl.
    split; simpl.
    + pose proof (existing_length w (recent_files s)). lia.
    + by apply existing_NoDup.
Qed.

(** C5.  In every state the store reaches, the recent list has at most 50
    entries and no repetition, [get_recent_items] returns at most 50
    descriptors, and an access to an existing path that is already listed
    puts it in front, once, the other entries keeping their order. *)
Theorem recent_files_bounded_nodup (s : SmartFeatures.t) :
  reachable s ->
  ((length (recent_files s) <= 50)%nat /\ NoDup (recent_files s)) /\
  (forall w, (length (snd (get_recent_items w s)) <= 50)%nat) /\
  (forall w p,
      exists_ w p = true -> (p ∈ recent_files s) ->
      let recent' := recent_files (snd (track_access w s p)) in
      recent' = p :: list_remove p (recent_files s) /\
      (p ∉ list_remove p (recent_files s)) /\
      length recent' = length (recent_files s)).
Proof.
  intros Hs. destruct (reachable_inv s Hs) as [Hlen Hnd].
  split; [by split|]. split.
  - intros w. simpl.
    pose proof (collect_details_length w (existing w (recent_files s))).
    pose proof (existing_length w (recent_files s)). lia.
  - intros w p Hex Hin. cbv zeta.
    rewrite track_access_recent by exact Hex.
    apply list_in_spec in Hin as Hin'. rewrite Hin'.
    pose proof (list_remove_length p _ Hin) as Hrem.
    assert (Htake : take 50 (p :: list_remove p (recent_files s))
                    = p :: list_remove p (recent_files s)).
    { apply take_ge. simpl. lia. }
    rewrite Htake. split; [reflexivity|]. split.
    + by apply list_remove_NoDup.
    + simpl. exact Hrem.
Qed.

Lemma recent_files_bounded_nodup_witness :
  let s := snd (track_access history_world sample_history "/d/a") in
  recent_files s = ["/d/a"; "/d/c.txt"] /\
  (length (recent_files s) <= 50)%nat /\ NoDup (recent_files s).
Proof.
  cbv zeta. split; [reflexivity|].
  apply (recent_files_bounded_nodup
           (snd (track_access history_world sample_history "/d/a"))).
  apply reach_track.
  change sample_history with
    (snd (track_access history_world
            (snd (track_access history_world
                    (snd (track_access history_world (init "/d") "/d/c.txt")) "/d/a"))
            "/d/c.txt")).
  repeat apply reach_track. apply reach_init.
Defined.

(** C6.  An access to a path that does not exist changes nothing: the world,
    hence the history file, and the store are returned as they were, and
    [get_recent_items] answers as before. *)
Theorem track_access_missing_path (w : World) (s : SmartFeatures.t) (p : string) :
  exists_ w p = false ->
  let w' := fst (track_access w s p) in
  let s' := snd (track_access w s p) in
  recent_files s' = recent_files s /\
  frequent_items s' = frequent_items s /\
  history_file w' = history_file w /\
  get_recent_items w' s' = get_recent_items w s.
Proof.
  intros Hex. cbv zeta. unfold track_access. rewrite Hex. simpl. done.
Qed.

Lemma track_access_missing_path_witness :
  exists_ history_world "/d/gone" = false /\
  recent_files (snd (track_access history_world sample_history "/d/gone"))
  = recent_files sample_history.
Proof.
  split; [reflexivity|].
  apply (track_access_missing_path history_world sample_history "/d/gone"). reflexivity.
Defined.

(** C7.  When the history file can be written, a state saved by
    [_save_history] and loaded by [_load_history] in a world that holds the
    saved file and in which the recorded paths exist comes back with the same
    recent list and the same counts. *)
Theorem save_load_roundtrip (w w' : World) (s s0 : SmartFeatures.t) :
  history_writable w = true ->
  history_file w' = history_file (_save_history w s) ->
  Forall (fun p => exists_ w' p = true) (recent_files s) ->
  (forall p c, frequent_items s !! p = Some c -> exists_ w' p = true) ->
  recent_files (_load_history w' s0) = recent_files s /\
  frequent_items (_load_history w' s0) = frequent_items s.
Proof.
  intros Hw Hfile Hrecent Hfreq.
  unfold _save_history, json_dump in Hfile. rewrite Hw in Hfile. simpl in Hfile.
  unfold _load_history, history_exists, json_load. rewrite Hfile. simpl.
  split; [by apply existing_id|by apply existing_counts_id].
Qed.

Lemma save_load_roundtrip_witness :
  let w' := _save_history history_world sample_history in
  recent_files (_load_history w' (init "/")) = recent_files sample_history /\
  frequent_items (_load_history w' (init "/")) = frequent_items sample_history.
Proof.
  cbv zeta.
  apply (save_load_roundtrip history_world
           (_save_history history_world sample_history) sample_history (init "/")).
  - reflexivity.
  - reflexivity.
  - repeat constructor.
  - intros p c Hpc.
    destruct (decide (p = "/d/c.txt")) as [->|Hne1]; [reflexivity|].
    destruct (decide (p = "/d/a")) as [->|Hne2]; [reflexivity|].
    unfold sample_history in Hpc. simpl in Hpc.
    rewrite lookup_insert_ne, lookup_insert_ne, lookup_empty in Hpc by congruence.
    discriminate.
Defined.

(** ** Search by extension *)

Lemma rfind_from_spec (c : ascii) (s : string) :
  forall i, 0 <= i ->
    rfind_from c s i = -1 \/
    (i <= rfind_from c s i /\
     startswith (drop_str (Z.to_nat (rfind_from c s i - i)) s) c = true).
Proof.
  induction s as [|a s IH]; intros i Hi; simpl; [by left|].
  destruct (IH (i + 1)) as [Hr|[Hle Hst]]; [lia| |].
  - rewrite Hr. simpl. destruct (Ascii.eqb a c) eqn:Hac; [|by left].
    right. split; [lia|]. replace (i - i) with 0 by lia. simpl. exact Hac.
  - destruct (0 <=? rfind_from c s (i + 1)) eqn:H0; [|lia].
    right. split; [lia|].
    replace (Z.to_nat (rfind_from c s (i + 1) - i))
      with (S (Z.to_nat (rfind_from c s (i + 1) - (i + 1)))) by lia.
    simpl. exact Hst.
Qed.

Lemma rfind_lower_bound (s : string) (c : ascii) : -1 <= rfind s c.
Proof.
  unfold rfind. destruct (rfind_from_spec c s 0) as [->|[? _]]; lia.
Qed.

Lemma rfind_startswith (s : string) (c : ascii) :
  0 <= rfind s c -> startswith (slice_from s (rfind s c)) c = true.
Proof.
  unfold rfind, slice_from. intros Hr.
  destruct (rfind_from_spec c s 0) as [Hm|[_ Hst]]; [lia|lia|].
  by rewrite Z.sub_0_r in Hst.
Qed.

Lemma splitext_loop_snd (p : string) (dotIndex : Z) (n : nat) :
  forall filenameIndex,
    snd (splitext_loop p dotIndex filenameIndex n) = "" \/
    snd (splitext_loop p dotIndex filenameIndex n) = slice_from p dotIndex.
Proof.
  induction n as [|n IH]; intros f; simpl; [by left|].
  destruct (negb _); [by right|apply IH].
Qed.

Lemma splitext_ext_dot (p : string) :
  snd (splitext p) = "" \/ startswith (snd (splitext p)) extsep = true.
Proof.
  unfold splitext.
  destruct (rfind p sep <? rfind p extsep) eqn:Hlt; [|by left].
  destruct (splitext_loop_snd p (rfind p extsep)
              (Z.to_nat (rfind p extsep - (rfind p sep + 1))) (rfind p sep + 1))
    as [->| ->]; [by left|].
  right. apply rfind_startswith.
  pose proof (rfind_lower_bound p sep). lia.
Qed.

Lemma lower_char_eqb (a c : ascii) :
  c = sep \/ c = extsep -> Ascii.eqb (lower_char a) c = Ascii.eqb a c.
Proof.
  intros [->| ->];
    destruct a as [[] [] [] [] [] [] [] []]; reflexivity.
Qed.

Lemma startswith_lower (s : string) (c : ascii) :
  c = sep \/ c = extsep -> startswith (lower s) c = startswith s c.
Proof.
  intros Hc. destruct s as [|a s]; simpl; [reflexivity|].
  by apply lower_char_eqb.
Qed.

Lemma rfind_from_lower (c : ascii) (s : string) :
  c = sep \/ c = extsep ->
  forall i, rfind_from c (lower s) i = rfind_from c s i.
Proof.
  intros Hc. induction s as [|a s IH]; intros i; simpl; [reflexivity|].
  by rewrite IH, lower_char_eqb.
Qed.

Lemma take_str_lower (n : nat) (s : string) :
  take_str n (lower s) = lower (take_str n s).
Proof.
  revert s. induction n as [|n IH]; intros [|a s]; simpl; try reflexivity.
  by rewrite IH.
Qed.

Lemma drop_str_lower (n : nat) (s : string) :
  drop_str n (lower s) = lower (drop_str n s).
Proof.
  revert s. induction n as [|n IH]; intros [|a s]; simpl; try reflexivity.
  apply IH.
Qed.

Lemma char_at_lower_dot (p : string) (i : Z) :
  String.eqb (char_at (lower p) i) (String extsep "")
  = String.eqb (char_at p i) (String extsep "").
Proof.
  unfold char_at. rewrite drop_str_lower, take_str_lower.
  destruct (drop_str (Z.to_nat i) p) as [|a s]; [reflexivity|].
  simpl. rewrite lower_char_eqb by (by right). reflexivity.
Qed.

Lemma splitext_loop_lower (p : string) (dotIndex : Z) (n : nat) :
  forall filenameIndex,
    splitext_loop (lower p) dotIndex filenameIndex n
    = (lower (fst (splitext_loop p dotIndex filenameIndex n)),
       lower (snd (splitext_loop p dotIndex filenameIndex n))).
Proof.
  induction n as [|n IH]; intros f; simpl; [reflexivity|].
  rewrite char_at_lower_dot.
  destruct (negb _); [|apply IH].
  unfold slice_to, slice_from. simpl.
  by rewrite take_str_lower, drop_str_lower.
Qed.

(** [splitext] and [lower] commute. *)
Lemma splitext_lower (p : string) :
  splitext (lower p) = (lower (fst (splitext p)), lower (snd (splitext p))).
Proof.
  unfold splitext, rfind.
  rewrite !rfind_from_lower by auto.
  destruct (_ <? _); [apply splitext_loop_lower|reflexivity].
Qed.

Lemma lower_empty (s : string) : lower s = "" <-> s = "".
Proof. destruct s; simpl; split; congruence. Qed.

Lemma name_match_extension (keyword_search name_to_check : string) :
  name_match "extension" keyword_search name_to_check = true
  <-> keyword_search = snd (splitext name_to_check).
Proof.
  unfold name_match. simpl.
  destruct (String.eqb_spec keyword_search (snd (splitext name_to_check)));
    simpl; [tauto|].
  rewrite andb_false_r. split; [discriminate|contradiction].
Qed.

Lemma name_match_no_dot (keyword_search name_to_check : string) :
  startswith keyword_search extsep = false ->
  snd (splitext name_to_check) <> "" ->
  name_match "extension" keyword_search name_to_check = false.
Proof.
  intros Hk Hext.
  destruct (name_match "extension" keyword_search name_to_check) eqn:Hm;
    [|reflexivity].
  apply name_match_extension in Hm. subst.
  destruct (splitext_ext_dot name_to_check); congruence.
Qed.

(** C10.  In an extension search the name test holds exactly when the keyword
    equals the extension [splitext] returns, which is empty or begins with
    the dot; so for a keyword that does not begin with a dot, an entry whose
    extension is not empty fails the name test and is not appended to the
    results, with or without case folding. *)
Theorem extension_search_needs_leading_dot :
  (forall keyword_search name_to_check,
      name_match "extension" keyword_search name_to_check = true
      <-> keyword_search = snd (splitext name_to_check)) /\
  (forall name,
      snd (splitext name) = "" \/ startswith (snd (splitext name)) "."%char = true) /\
  (forall (w : World) (dirpath keyword : string) (case_sensitive : bool)
          (min_size_mb max_size_mb days_old : Z) (name : string),
      startswith keyword "."%char = false ->
      snd (splitext name) <> "" ->
      let keyword_search := if case_sensitive then keyword else lower keyword in
      let name_to_check := if case_sensitive then name else lower name in
      name_match "extension" keyword_search name_to_check = false /\
      search_entry w dirpath keyword_search "extension" case_sensitive
        min_size_mb max_size_mb days_old name = None).
Proof.
  split; [exact name_match_extension|].
  split; [exact splitext_ext_dot|].
  intros w dirpath keyword cs mn mx days name Hk Hext. cbv zeta.
  assert (Hm : name_match "extension" (if cs then keyword else lower keyword)
                 (if cs then name else lower name) = false).
  { apply name_match_no_dot.
    - destruct cs; [exact Hk|].
      rewrite startswith_lower by (by right). exact Hk.
    - destruct cs; [exact Hext|].
      rewrite splitext_lower. simpl. by rewrite lower_empty. }
  split; [exact Hm|].
  unfold search_entry.
  destruct (negb (exists_ w (join dirpath name))); [reflexivity|].
  destruct (get_file_details w (join dirpath name)); [|reflexivity].
  rewrite Hm. reflexivity.
Qed.

Lemma extension_search_needs_leading_dot_witness :
  snd (splitext "c.txt") = ".txt" /\
  name_match "extension" "txt" "c.txt" = false /\
  name_match "extension" ".txt" "c.txt" = true /\
  search_entry listing_world "/d" "txt" "extension" false 0 0 0 "c.txt" = None.
Proof.
  split; [reflexivity|].
  destruct extension_search_needs_leading_dot as (_ & _ & H).
  destruct (H listing_world "/d" "txt" false 0 0 0 "c.txt") as [H1 H2];
    [reflexivity|discriminate|].
  split; [exact H1|]. split; [reflexivity|exact H2].
Defined.

(** ** Duplicate detection: the size buckets *)

Lemma bucket_append_keys (s : Z) (p : string) (fbs : list (Z * list string)) :
  (bucket_append s p fbs).*1
  = if decide (s ∈ fbs.*1) then fbs.*1 else (fbs.*1 ++ [s])%list.
Proof.
  induction fbs as [|[s' ps] fbs IH]; [reflexivity|].
  cbn [bucket_append].
  destruct (Z.eqb_spec s' s) as [->|Hne]; rewrite !fmap_cons; cbn [fst].
  - rewrite decide_True by (by left). reflexivity.
  - rewrite IH. destruct (decide (s ∈ fbs.*1)) as [Hin|Hnin].
    + rewrite decide_True by (by right). reflexivity.
    + rewrite decide_False; [reflexivity|].
      rewrite elem_of_cons. intros [?|?]; congruence.
Qed.

Lemma bucket_append_to_map (s : Z) (p : string) (fbs : list (Z * list string)) :
  (list_to_map (bucket_append s p fbs) : gmap Z (list string))
  = <[s := (default [] ((list_to_map fbs : gmap Z (list string)) !! s) ++ [p])%list]>
      (list_to_map fbs).
Proof.
  induction fbs as [|[s' ps] fbs IH]; simpl; [reflexivity|].
  destruct (Z.eqb_spec s' s) as [->|Hne]; simpl.
  - rewrite lookup_insert_eq. simpl. by rewrite insert_insert_eq.
  - rewrite IH, lookup_insert_ne by exact Hne.
    by apply insert_insert_ne.
Qed.

Lemma size_bucket_app (w : World) (s : Z) (l1 l2 : list string) :
  size_bucket w s (l1 ++ l2) = (size_bucket w s l1 ++ size_bucket w s l2)%list.
Proof. apply List.filter_app. Qed.

Lemma nonempty_default (l : list string) : default [] (nonempty l) = l.
Proof. by destruct l. Qed.

Lemma buckets_of_append (w : World) (files : list string)
    (fbs : list (Z * list string)) (p : string) (s : Z) :
  buckets_of w files fbs -> size_of w p = Some s ->
  buckets_of w (files ++ [p]) (bucket_append s p fbs).
Proof.
  intros [Hnd Hlk] Hsize. split.
  - rewrite bucket_append_keys. case_decide as Hin; [exact Hnd|].
    apply NoDup_app. split; [exact Hnd|]. split; [|apply NoDup_singleton].
    intros x Hx Hx'. apply list_elem_of_singleton in Hx'. by subst.
  - intros s'. rewrite bucket_append_to_map, size_bucket_app. simpl.
    rewrite Hlk, nonempty_default.
    destruct (decide (s = s')) as [<-|Hne].
    + rewrite lookup_insert_eq.
      rewrite bool_decide_eq_true_2 by exact Hsize.
      by destruct (size_bucket w s files).
    + rewrite lookup_insert_ne by exact Hne.
      rewrite bool_decide_eq_false_2 by congruence.
      by rewrite Hlk, app_nil_r.
Qed.

Lemma size_step_candidate (w : World) (m : Z) (dirpath filename : string)
    (fbs : list (Z * list string)) :
  size_step w m dirpath fbs filename
  = match size_of w (join dirpath filename) with
    | Some s => if is_candidate w m (join dirpath filename)
                then bucket_append s (join dirpath filename) fbs else fbs
    | None => fbs
    end.
Proof.
  unfold size_step, is_candidate, size_of, isfile, getsize.
  destruct (os_stat w (join dirpath filename)) as [st|]; simpl; [|reflexivity].
  destruct (st_kind st); reflexivity.
Qed.

Lemma is_candidate_size (w : World) (m : Z) (p : string) :
  is_candidate w m p = true -> exists s, size_of w p = Some s.
Proof.
  unfold is_candidate, size_of. destruct (os_stat w p); [eauto|discriminate].
Qed.

Lemma buckets_of_files (w : World) (m : Z) (dirpath : string) (filenames : list string) :
  forall files fbs,
    buckets_of w files fbs ->
    buckets_of w
      (files ++ List.filter (is_candidate w m) (map (join dirpath) filenames))
      (fold_left (size_step w m dirpath) filenames fbs).
Proof.
  induction filenames as [|f filenames IH]; intros files fbs Hinv; simpl.
  - by rewrite app_nil_r.
  - rewrite size_step_candidate.
    destruct (is_candidate w m (join dirpath f)) eqn:Hc.
    + destruct (is_candidate_size w m _ Hc) as [s Hs]. rewrite Hs.
      rewrite (cons_middle (join dirpath f)), app_assoc. apply IH.
      by apply buckets_of_append.
    + destruct (size_of w (join dirpath f)); by apply IH.
Qed.

Lemma buckets_of_walk (w : World) (m : Z) (walk : list walk_entry) :
  forall files fbs,
    buckets_of w files fbs ->
    buckets_of w
      (files ++ List.filter (is_candidate w m)
                  (flat_map
                     (fun entry : walk_entry =>
                        let '(dirpath, _, filenames) := entry in
                        if readable_dir w dirpath then map (join dirpath) filenames
                        else [])
                     walk))
      (fold_left (size_walk_step w m) walk fbs).
Proof.
  induction walk as [|[[dirpath dirnames] filenames] walk IH];
    intros files fbs Hinv; simpl.
  - by rewrite app_nil_r.
  - rewrite List.filter_app, app_assoc.
    apply IH. destruct (readable_dir w dirpath).
    + by apply buckets_of_files.
    + simpl. by rewrite app_nil_r.
Qed.

Lemma files_by_size_buckets (w : World) (root_dir : string) (min_size_mb : Z) :
  buckets_of w (candidate_files w root_dir min_size_mb)
    (files_by_size w root_dir min_size_mb).
Proof.
  unfold files_by_size, candidate_files, walked_files.
  apply (buckets_of_walk w _ (os_walk w root_dir) [] []).
  split; [constructor|]. intros s. reflexivity.
Qed.

Lemma buckets_of_elem (w : World) (files : list string)
    (fbs : list (Z * list string)) (s : Z) (ps : list string) :
  buckets_of w files fbs -> (s, ps) ∈ fbs ->
  ps = size_bucket w s files /\ ps <> [].
Proof.
  intros [Hnd Hlk] Hin.
  apply (elem_of_list_to_map_1 (M := gmap Z)) in Hin; [|exact Hnd].
  rewrite Hlk in Hin. unfold nonempty in Hin.
  destruct (size_bucket w s files); [discriminate|].
  injection Hin as <-. by split.
Qed.

Lemma size_bucket_elem (w : World) (s : Z) (files : list string) (p : string) :
  p ∈ size_bucket w s files <-> p ∈ files /\ size_of w p = Some s.
Proof.
  unfold size_bucket. rewrite !list_elem_of_In, List.filter_In.
  by rewrite bool_decide_eq_true.
Qed.

(** ** Duplicate detection: the digest groups *)



Lemma hash_step_digest (w : World) (alg : string)
    (hashes : gmap string string) (dup : gmap string (list string)) (p : string) :
  hash_step w alg (hashes, dup) p
  = match digest_of w alg p with
    | None => (hashes, dup)
    | Some h =>
        match hashes !! h with
        | Some first =>
            (hashes,
             alter (fun l => (l ++ [p])%list) h
               (match dup !! h with
                | None => <[h := [first]]> dup
                | Some _ => dup
                end))
        | None => (<[h := p]> hashes, dup)
        end
    end.
Proof.
  unfold hash_step, digest_of.
  destruct (get_file_hash w p alg 65536) as [h|]; [|reflexivity].
  destruct (String.eqb h ""); reflexivity.
Qed.

Lemma hash_fold_sound (w : World) (alg : string) (files l : list string) :
  forall hashes dup,
    (forall p, p ∈ l -> p ∈ files) ->
    sound_groups w alg files dup ->
    (forall h f, hashes !! h = Some f -> f ∈ files /\ digest_of w alg f = Some h) ->
    sound_groups w alg files (snd (fold_left (hash_step w alg) l (hashes, dup))).
Proof.
  induction l as [|p l IH]; intros hashes dup Hl Hdup Hhashes;
    cbn [fold_left]; [exact Hdup|].
  assert (Hp : p ∈ files) by (apply Hl; by left).
  assert (Hl' : forall q, q ∈ l -> q ∈ files) by (intros q Hq; apply Hl; by right).
  rewrite hash_step_digest.
  destruct (digest_of w alg p) as [h|] eqn:Hd; [|by apply IH].
  destruct (hashes !! h) as [first|] eqn:Hh.
  - apply IH; [exact Hl'| |exact Hhashes].
    destruct (Hhashes h first Hh) as [Hf1 Hf2].
    intros h' ps' Hlk.
    destruct (decide (h = h')) as [<-|Hne].
    + rewrite lookup_alter_eq in Hlk.
      destruct (dup !! h) as [ps|] eqn:Hdh.
      * rewrite Hdh in Hlk. simpl in Hlk. injection Hlk as <-.
        destruct (Hdup h ps Hdh) as [Hlen Hmem]. split.
        -- rewrite length_app. simpl. lia.
        -- intros q Hq. apply elem_of_app in Hq as [Hq|Hq]; [by apply Hmem|].
           apply list_elem_of_singleton in Hq. by subst.
      * rewrite lookup_insert_eq in Hlk. simpl in Hlk. injection Hlk as <-.
        split; [simpl; lia|].
        intros q Hq. rewrite !elem_of_cons, elem_of_nil in Hq.
        destruct Hq as [->|[->|[]]]; by split.
    + rewrite lookup_alter_ne in Hlk by exact Hne.
      destruct (dup !! h); [by apply Hdup|].
      rewrite lookup_insert_ne in Hlk by exact Hne. by apply Hdup.
  - apply IH; [exact Hl'|exact Hdup|].
    intros h' f Hlk. destruct (decide (h = h')) as [<-|Hne].
    + rewrite lookup_insert_eq in Hlk. injection Hlk as <-. by split.
    + rewrite lookup_insert_ne in Hlk by exact Hne. by apply Hhashes.
Qed.

Lemma bucket_fold_sound (w : World) (alg : string) (files : list string)
    (fbs : list (Z * list string)) :
  forall dup,
    (forall s ps p, (s, ps) ∈ fbs -> p ∈ ps -> p ∈ files) ->
    sound_groups w alg files dup ->
    sound_groups w alg files (fold_left (bucket_step w alg) fbs dup).
Proof.
  induction fbs as [|[s ps] fbs IH]; intros dup Hfbs Hdup; simpl; [exact Hdup|].
  apply IH.
  - intros s' ps' p Hin. apply (Hfbs s' ps' p). by right.
  - destruct (1 <? length ps)%nat; [|exact Hdup].
    apply hash_fold_sound; [|exact Hdup|].
    + intros p. apply (Hfbs s ps p). by left.
    + intros h f Hlk. by rewrite lookup_empty in Hlk.
Qed.

Lemma find_duplicate_files_sound (w : World) (root_dir alg : string) (min_size_mb : Z) :
  sound_groups w alg (candidate_files w root_dir min_size_mb)
    (find_duplicate_files w root_dir alg min_size_mb).
Proof.
  unfold find_duplicate_files. apply bucket_fold_sound.
  - intros s ps p Hin Hp.
    destruct (buckets_of_elem w _ _ s ps (files_by_size_buckets w root_dir min_size_mb) Hin)
      as [-> _].
    by apply size_bucket_elem in Hp as [Hp _].
  - intros h ps Hlk. by rewrite lookup_empty in Hlk.
Qed.



Lemma candidate_files_size (w : World) (root_dir : string) (min_size_mb : Z) (p : string) :
  p ∈ candidate_files w root_dir min_size_mb ->
  exists s, size_of w p = Some s /\ min_size_mb * 1024 * 1024 <= s /\ isfile w p = true.
Proof.
  unfold candidate_files. rewrite list_elem_of_In, List.filter_In.
  intros [_ Hc]. unfold is_candidate, size_of, isfile in *.
  destruct (os_stat w p) as [st|]; [|discriminate].
  destruct (st_kind st); try discriminate.
  exists (st_size st). split; [reflexivity|]. split; [lia|reflexivity].
Qed.


(** *** The groups, bucket by bucket *)
















(** The scenario of the specification, with a third copy added. *)
Lemma find_duplicate_files_scenario :
  find_duplicate_files duplicates_world "/root" "md5" 0
  = {[ "md5:xyz" := ["/root/a.txt"; "/root/b.txt"; "/root/d.txt"] ]}.
Proof. by vm_compute. Qed.

(** ** The version test *)

Import HSEApp.

Lemma component_nil (i : nat) : component [] i = 0.
Proof. by destruct i. Qed.

Lemma component_pad (l : list Z) (k i : nat) :
  component (l ++ replicate k 0) i = component l i.
Proof.
  unfold component. rewrite !nth_lookup, lookup_app.
  destruct (l !! i) as [z|] eqn:Hl; [reflexivity|]. simpl.
  destruct (replicate k 0 !! (i - length l)%nat) as [z|] eqn:Hr; [|reflexivity].
  by apply lookup_replicate in Hr as [-> _].
Qed.

Lemma newer_pad (l r : list Z) (k1 k2 : nat) :
  newer (l ++ replicate k1 0) (r ++ replicate k2 0) <-> newer l r.
Proof.
  unfold newer. split; intros (i & Hpre & Hlt); exists i.
  - rewrite !component_pad in Hlt. split; [|exact Hlt].
    intros j Hj. specialize (Hpre j Hj). by rewrite !component_pad in Hpre.
  - rewrite !component_pad. split; [|exact Hlt].
    intros j Hj. rewrite !component_pad. by apply Hpre.
Qed.

Lemma list_gt_newer (a : list Z) :
  forall b, length a = length b -> list_gt a b = true <-> newer b a.
Proof.
  induction a as [|x a IH]; intros [|y b] Hlen; simpl in Hlen; try lia.
  - simpl. split; [discriminate|].
    intros (i & _ & Hlt). rewrite !component_nil in Hlt. lia.
  - cbn [list_gt]. destruct (Z.eqb_spec x y) as [->|Hne].
    + rewrite IH by lia. split.
      * intros (i & Hpre & Hlt). exists (S i). split; [|exact Hlt].
        intros [|j] Hj; [reflexivity|]. apply Hpre. lia.
      * intros ([|i] & Hpre & Hlt); [unfold component in Hlt; simpl in Hlt; lia|].
        exists i. split; [|exact Hlt].
        intros j Hj. apply (Hpre (S j)). lia.
    + rewrite Z.ltb_lt. split.
      * intros Hlt. exists O. split; [intros j Hj; lia|exact Hlt].
      * intros ([|i] & Hpre & Hlt); [exact Hlt|].
        specialize (Hpre O ltac:(lia)). unfold component in Hpre. simpl in Hpre.
        congruence.
Qed.

Lemma is_new_parsed (local_v remote_v : string) (l r : list Z) :
  parse_parts (split_char "." local_v) = Ok l ->
  parse_parts (split_char "." remote_v) = Ok r ->
  exists b, _is_new_version_available local_v remote_v = Ok b /\
            (b = true <-> newer l r).
Proof.
  intros Hl Hr. unfold _is_new_version_available. rewrite Hl, Hr. simpl.
  eexists. split; [reflexivity|].
  rewrite list_gt_newer by (rewrite !length_app, !length_replicate; lia).
  apply newer_pad.
Qed.

Lemma py_int_raise (s : string) (e : exn) : py_int s = Raise e -> e = ValueError.
Proof.
  unfold py_int. destruct (match strip _ with [] => _ | _ => _ end); congruence.
Qed.

Lemma parse_parts_raise_inv (parts : list string) (e : exn) :
  parse_parts parts = Raise e ->
  e = ValueError /\ exists c, c ∈ parts /\ py_int c = Raise ValueError.
Proof.
  induction parts as [|p parts IH]; simpl; [discriminate|].
  destruct (py_int p) as [z|e'] eqn:Hp; simpl.
  - destruct (parse_parts parts) as [zs|e']; simpl; [discriminate|].
    intros [= ->]. destruct (IH eq_refl) as (-> & c & Hc & Hraise).
    split; [reflexivity|]. exists c. split; [by right|exact Hraise].
  - pose proof (py_int_raise _ _ Hp) as ->. intros [= <-].
    split; [reflexivity|]. exists p. split; [by left|exact Hp].
Qed.

Lemma parse_parts_raise (parts : list string) (c : string) :
  c ∈ parts -> py_int c = Raise ValueError ->
  parse_parts parts = Raise ValueError.
Proof.
  induction parts as [|p parts IH]; intros Hc Hraise.
  - by apply elem_of_nil in Hc.
  - simpl. apply elem_of_cons in Hc as [<-|Hc].
    + by rewrite Hraise.
    + destruct (py_int p) as [z|e] eqn:Hp; simpl.
      * by rewrite IH.
      * by rewrite (py_int_raise _ _ Hp).
Qed.

Lemma is_new_inv (local_v remote_v : string) (b : bool) :
  _is_new_version_available local_v remote_v = Ok b ->
  exists l r,
    parse_parts (split_char "." local_v) = Ok l /\
    parse_parts (split_char "." remote_v) = Ok r /\
    (b = true <-> newer l r).
Proof.
  intros Hb.
  destruct (parse_parts (split_char "." local_v)) as [l|e] eqn:Hl;
    [|unfold _is_new_version_available in Hb; by rewrite Hl in Hb].
  destruct (parse_parts (split_char "." remote_v)) as [r|e] eqn:Hr;
    [|unfold _is_new_version_available in Hb; by rewrite Hl, Hr in Hb].
  destruct (is_new_parsed _ _ l r Hl Hr) as (b' & Hb' & Hiff).
  assert (b' = b) as -> by congruence.
  by exists l, r.
Qed.

Lemma newer_irrefl (l : list Z) : ~ newer l l.
Proof. intros (i & _ & Hlt). lia. Qed.

Lemma newer_asym (l r : list Z) : newer l r -> ~ newer r l.
Proof.
  intros (i & Hi & Hlt) (k & Hk & Hlt').
  destruct (Nat.lt_trichotomy i k) as [H|[<-|H]].
  - specialize (Hk i H). lia.
  - lia.
  - specialize (Hi k H). lia.
Qed.

Lemma newer_trans (a b c : list Z) : newer a b -> newer b c -> newer a c.
Proof.
  intros (i & Hi & Hlt) (k & Hk & Hlt').
  destruct (Nat.lt_trichotomy i k) as [H|[<-|H]].
  - exists i. split; [|rewrite <- (Hk i H); exact Hlt].
    intros j Hj. rewrite (Hi j Hj). apply Hk. lia.
  - exists i. split; [|lia].
    intros j Hj. rewrite (Hi j Hj). by apply Hk.
  - exists k. split; [|rewrite (Hi k H); exact Hlt'].
    intros j Hj. rewrite <- (Hk j Hj). apply Hi. lia.
Qed.

Lemma not_newer_equal (l r : list Z) :
  ~ newer l r -> ~ newer r l -> forall i, component l i = component r i.
Proof.
  intros Hlr Hrl i. induction i as [i IH] using lt_wf_ind.
  destruct (Z.lt_trichotomy (component l i) (component r i)) as [H|[H|H]];
    [|exact H|].
  - destruct Hlr. exists i. by split.
  - destruct Hrl. exists i. split; [|lia]. intros j Hj. symmetry. by apply IH.
Qed.

Lemma newer_ext (l l' r r' : list Z) :
  (forall i, component l i = component l' i) ->
  (forall i, component r i = component r' i) ->
  newer l r <-> newer l' r'.
Proof.
  intros Hl Hr. unfold newer. split; intros (i & Hpre & Hlt); exists i.
  - rewrite <- Hl, <- Hr. split; [|exact Hlt].
    intros j Hj. rewrite <- Hl, <- Hr. by apply Hpre.
  - rewrite Hl, Hr. split; [|exact Hlt].
    intros j Hj. rewrite Hl, Hr. by apply Hpre.
Qed.

Lemma bool_eq_iff (b1 b2 : bool) (P Q : Prop) :
  (b1 = true <-> P) -> (b2 = true <-> Q) -> (P <-> Q) -> b1 = b2.
Proof. destruct b1, b2; intros H1 H2 H; try reflexivity; exfalso; intuition congruence. Qed.

(** Two versions with equal components give equal verdicts against any
    third string, on either side. *)
Lemma is_new_congruence (a a' b b' : string) (la la' lb lb' : list Z) :
  parse_parts (split_char "." a) = Ok la ->
  parse_parts (split_char "." a') = Ok la' ->
  parse_parts (split_char "." b) = Ok lb ->
  parse_parts (split_char "." b') = Ok lb' ->
  (forall i, component la i = component la' i) ->
  (forall i, component lb i = component lb' i) ->
  _is_new_version_available a b = _is_new_version_available a' b'.
Proof.
  intros Ha Ha' Hb Hb' Hca Hcb.
  destruct (is_new_parsed a b la lb Ha Hb) as (x & -> & Hx).
  destruct (is_new_parsed a' b' la' lb' Ha' Hb') as (y & -> & Hy).
  f_equal. eapply bool_eq_iff; [exact Hx|exact Hy|]. by apply newer_ext.
Qed.

(** X1.  When both strings parse, the verdict is [True] exactly when, at the
    first component where the versions differ, a missing component counting
    as 0, the remote number is the larger. *)
Theorem is_new_version_first_difference (local_v remote_v : string) (l r : list Z) :
  parse_parts (split_char "." local_v) = Ok l ->
  parse_parts (split_char "." remote_v) = Ok r ->
  exists b, _is_new_version_available local_v remote_v = Ok b /\
            (b = true <-> newer l r).
Proof. apply is_new_parsed. Qed.

Lemma is_new_version_first_difference_witness :
  exists b, _is_new_version_available "1.9" "1.10.0" = Ok b /\
            (b = true <-> newer [1; 9] [1; 10; 0]).
Proof.
  apply (is_new_version_first_difference "1.9" "1.10.0" [1; 9] [1; 10; 0]);
    reflexivity.
Defined.

(** X2.  The verdict is a strict order on version strings: no version is
    newer than itself, two versions are never newer than each other, newer
    is transitive, and two versions neither of which is newer than the other
    give the same answer against every third string. *)
Theorem is_new_version_strict_order (a b c : string) :
  _is_new_version_available a a <> Ok true /\
  (_is_new_version_available a b = Ok true ->
   _is_new_version_available b a = Ok false) /\
  (_is_new_version_available a b = Ok true ->
   _is_new_version_available b c = Ok true ->
   _is_new_version_available a c = Ok true) /\
  (_is_new_version_available a b = Ok false ->
   _is_new_version_available b a = Ok false ->
   _is_new_version_available a c = _is_new_version_available b c /\
   _is_new_version_available c a = _is_new_version_available c b).
Proof.
  split; [|split; [|split]].
  - intros H. destruct (is_new_inv _ _ _ H) as (l & r & Hl & Hr & Hiff).
    assert (l = r) as -> by congruence.
    by apply (newer_irrefl r), Hiff.
  - intros H. destruct (is_new_inv _ _ _ H) as (l & r & Hl & Hr & Hiff).
    destruct (is_new_parsed b a r l Hr Hl) as (x & -> & Hx). f_equal.
    destruct x; [|reflexivity].
    destruct (newer_asym l r); [by apply Hiff|by apply Hx].
  - intros H1 H2.
    destruct (is_new_inv _ _ _ H1) as (l & r & Hl & Hr & Hiff1).
    destruct (is_new_inv _ _ _ H2) as (r' & t & Hr' & Ht & Hiff2).
    assert (r' = r) as -> by congruence.
    destruct (is_new_parsed a c l t Hl Ht) as (x & -> & Hx). f_equal.
    apply Hx. apply (newer_trans l r t); [by apply Hiff1|by apply Hiff2].
  - intros H H0.
    destruct (is_new_inv _ _ _ H) as (l & r & Hl & Hr & Hiff1).
    destruct (is_new_inv _ _ _ H0) as (r' & l' & Hr' & Hl' & Hiff2).
    assert (r' = r) as -> by congruence. assert (l' = l) as -> by congruence.
    assert (Heq : forall i, component l i = component r i).
    { apply not_newer_equal; intros Hn; [apply Hiff1 in Hn|apply Hiff2 in Hn];
        discriminate. }
    destruct (parse_parts (split_char "." c)) as [t|e] eqn:Ht.
    + split; [by apply (is_new_congruence a b c c l r t t)|
              by apply (is_new_congruence c c a b t t l r)].
    + unfold _is_new_version_available. by rewrite Hl, Hr, Ht.
Qed.

Lemma split_char_cons (c : ascii) (s : string) :
  exists x xs, split_char c s = x :: xs.
Proof.
  destruct s as [|a s]; simpl; [by eexists _, _|].
  destruct (Ascii.eqb a c); [by eexists _, _|].
  destruct (split_char c s); by eexists _, _.
Qed.

Lemma split_char_dot_zero (v : string) :
  split_char "." (String.append v ".0") = (split_char "." v ++ ["0"])%list.
Proof.
  induction v as [|a v IH]; [reflexivity|].
  change (String.append (String a v) ".0") with (String a (String.append v ".0")).
  cbn [split_char]. rewrite IH.
  destruct (Ascii.eqb a "."); [reflexivity|].
  by destruct (split_char_cons "." v) as (x & xs & ->).
Qed.

Lemma parse_parts_snoc_zero (parts : list string) :
  parse_parts (parts ++ ["0"])
  = (zs ← parse_parts parts; Ok (zs ++ [0])%list).
Proof.
  induction parts as [|p parts IH]; [reflexivity|].
  cbn [app parse_parts]. rewrite IH.
  destruct (py_int p); [|reflexivity].
  by destruct (parse_parts parts).
Qed.

Lemma component_snoc_zero (l : list Z) (i : nat) :
  component (l ++ [0]) i = component l i.
Proof. apply (component_pad l 1 i). Qed.

(** X3.  A trailing [.0] changes nothing: appended to the local or to the
    remote version it leaves the result, verdict or exception, as it was. *)
Theorem is_new_version_trailing_zero (local_v remote_v : string) :
  _is_new_version_available (String.append local_v ".0") remote_v
  = _is_new_version_available local_v remote_v /\
  _is_new_version_available local_v (String.append remote_v ".0")
  = _is_new_version_available local_v remote_v.
Proof.
  assert (Hparse : forall v,
            parse_parts (split_char "." (String.append v ".0"))
            = (zs ← parse_parts (split_char "." v); Ok (zs ++ [0])%list)).
  { intros v. by rewrite split_char_dot_zero, parse_parts_snoc_zero. }
  destruct (parse_parts (split_char "." local_v)) as [l|e] eqn:Hl.
  2:{ unfold _is_new_version_available. rewrite Hparse, Hl. by split. }
  destruct (parse_parts (split_char "." remote_v)) as [r|e] eqn:Hr.
  2:{ unfold _is_new_version_available. rewrite !Hparse, Hl, Hr. by split. }
  split.
  - apply (is_new_congruence _ _ _ _ (l ++ [0]) l r r); try done.
    + by rewrite Hparse, Hl.
    + apply component_snoc_zero.
  - apply (is_new_congruence _ _ _ _ l l (r ++ [0]) r); try done.
    + by rewrite Hparse, Hr.
    + apply component_snoc_zero.
Qed.

(** X4.  The version test raises exactly when a component of one of the two
    strings is not an integer literal, and then it raises [ValueError]; this
    is the case of every string with an empty component, the empty string
    included. *)
Theorem is_new_version_value_error (local_v remote_v : string) :
  (forall e,
      _is_new_version_available local_v remote_v = Raise e <->
      e = ValueError /\
      exists c, c ∈ (split_char "." local_v ++ split_char "." remote_v)%list /\
                py_int c = Raise ValueError) /\
  (("" ∈ split_char "." local_v) \/ ("" ∈ split_char "." remote_v) ->
   _is_new_version_available local_v remote_v = Raise ValueError).
Proof.
  assert (Hraise : forall c,
            c ∈ (split_char "." local_v ++ split_char "." remote_v)%list ->
            py_int c = Raise ValueError ->
            _is_new_version_available local_v remote_v = Raise ValueError).
  { intros c Hc Hint. unfold _is_new_version_available.
    apply elem_of_app in Hc as [Hc|Hc].
    - by rewrite (parse_parts_raise _ c Hc Hint).
    - rewrite (parse_parts_raise _ c Hc Hint).
      destruct (parse_parts (split_char "." local_v)) as [l|e] eqn:Hl;
        [reflexivity|].
      by destruct (parse_parts_raise_inv _ _ Hl) as [-> _]. }
  split.
  - intros e. split.
    + unfold _is_new_version_available. intros H.
      destruct (parse_parts (split_char "." local_v)) as [l|e'] eqn:Hl.
      * destruct (parse_parts (split_char "." remote_v)) as [r|e'] eqn:Hr;
          [discriminate|].
        simpl in H. injection H as ->.
        destruct (parse_parts_raise_inv _ _ Hr) as (-> & c & Hc & Hint).
        split; [reflexivity|]. exists c. split; [|exact Hint].
        apply elem_of_app. by right.
      * simpl in H. injection H as ->.
        destruct (parse_parts_raise_inv _ _ Hl) as (-> & c & Hc & Hint).
        split; [reflexivity|]. exists c. split; [|exact Hint].
        apply elem_of_app. by left.
    + intros (-> & c & Hc & Hint). by apply (Hraise c).
  - intros H. apply (Hraise ""); [|reflexivity].
    apply elem_of_app. exact H.
Qed.

(** ** Digests and block sizes *)

Import UtilsHash.

Lemma get_file_hash_try_unsupported (w : World) (file_path alg : string) (block_size : Z) :
  alg <> "md5" -> alg <> "sha1" -> alg <> "sha256" ->
  get_file_hash_try w file_path alg block_size = Raise ValueError.
Proof.
  intros H1 H2 H3. apply String.eqb_neq in H1, H2, H3.
  unfold get_file_hash_try. by rewrite H1, H2, H3.
Qed.


(** X6.  On a regular file the SHA-256 helper of [utils.py] and
    [get_file_hash] with the algorithm [sha256] return the same value, for
    every block size. *)
Theorem calculate_file_hash_agrees (w : World) (file_path : string) (block_size : Z) :
  isfile w file_path = true ->
  calculate_file_hash w file_path block_size
  = get_file_hash w file_path "sha256" block_size.
Proof.
  intros Hfile. unfold calculate_file_hash, calculate_file_hash_try, get_file_hash.
  rewrite Hfile. cbn [negb].
  rewrite get_file_hash_try_supported by auto.
  destruct (read_bytes w file_path) as [content|e]; [|reflexivity].
  cbn [mbind result_bind]. by rewrite hashed_bytes_content.
Qed.

Lemma calculate_file_hash_agrees_witness :
  calculate_file_hash duplicates_world "/root/a.txt" 4096
  = get_file_hash duplicates_world "/root/a.txt" "sha256" 4096.
Proof.
  apply (calculate_file_hash_agrees duplicates_world "/root/a.txt" 4096).
  reflexivity.
Defined.

(** ** Icons *)

Lemma lower_char_idem (a : ascii) : lower_char (lower_char a) = lower_char a.
Proof. destruct a as [[] [] [] [] [] [] [] []]; reflexivity. Qed.

Lemma lower_idem (s : string) : lower (lower s) = lower s.
Proof.
  induction s as [|a s IH]; [reflexivity|].
  simpl. by rewrite lower_char_idem, IH.
Qed.

(** X7.  [get_file_icon] returns the folder icon for directories and for
    nothing else. *)
Theorem get_file_icon_folder_iff (w : World) (file_path : string) :
  get_file_icon w file_path = "📁" <-> isdir w file_path = true.
Proof.
  unfold get_file_icon. destruct (isdir w file_path); [done|].
  split; [|discriminate].
  repeat (match goal with
          | |- context [if ?b then _ else _] => destruct b
          end; [discriminate|]).
  discriminate.
Qed.

(** X8.  When neither a path nor its lower-case form is a directory, both
    get the same icon: the extension is compared in lower case. *)
Theorem get_file_icon_case_insensitive (w : World) (file_path : string) :
  isdir w file_path = false ->
  isdir w (lower file_path) = false ->
  get_file_icon w (lower file_path) = get_file_icon w file_path.
Proof.
  intros Hd Hd'. unfold get_file_icon.
  rewrite Hd, Hd', splitext_lower. cbn [snd]. by rewrite lower_idem.
Qed.

Lemma get_file_icon_case_insensitive_witness :
  get_file_icon listing_world "/d/c.txt" = get_file_icon listing_world "/D/C.TXT".
Proof.
  symmetry.
  apply (get_file_icon_case_insensitive listing_world "/D/C.TXT"); reflexivity.
Defined.

(** ** Categories *)

Import SmartPanels.

Lemma category_of_name (item : details) : category_of item ∈ category_names.
Proof.
  unfold category_of, category_names.
  repeat (match goal with
          | |- context [if ?b then _ else _] => destruct b
          end; [set_solver|]).
  set_solver.
Qed.

Lemma categories_append_lookup (cats : gmap string (list details))
    (item : details) (c : string) :
  default [] (categories_append cats item !! c)
  = (default [] (cats !! c)
     ++ if bool_decide (category_of item = c) then [item] else [])%list.
Proof.
  unfold categories_append. case_bool_decide as Hc.
  - subst c. by rewrite lookup_insert_eq.
  - rewrite lookup_insert_ne by exact Hc. by rewrite app_nil_r.
Qed.

Lemma categorize_fold_lookup (file_list : list details) :
  forall (cats : gmap string (list details)) (c : string),
    default [] (fold_left categories_append file_list cats !! c)
    = (default [] (cats !! c)
       ++ List.filter (fun item => bool_decide (category_of item = c)) file_list)%list.
Proof.
  induction file_list as [|item file_list IH]; intros cats c; cbn [fold_left].
  - by rewrite app_nil_r.
  - rewrite IH, categories_append_lookup. cbn [List.filter].
    rewrite <- app_assoc. by destruct (bool_decide (category_of item = c)).
Qed.

Lemma categorize_fold_keys (file_list : list details) :
  forall cats : gmap string (list details),
    (forall c, is_Some (cats !! c) -> c ∈ category_names /\ cats !! c <> Some []) ->
    forall c, is_Some (fold_left categories_append file_list cats !! c) ->
              c ∈ category_names /\
              fold_left categories_append file_list cats !! c <> Some [].
Proof.
  induction file_list as [|item file_list IH]; intros cats Hcats; cbn [fold_left];
    [exact Hcats|].
  apply IH. intros c Hc. unfold categories_append in *.
  destruct (decide (category_of item = c)) as [<-|Hne].
  - split; [apply category_of_name|].
    rewrite lookup_insert_eq. intros [= H]. by destruct (default [] _).
  - rewrite lookup_insert_ne in Hc |- * by exact Hne. by apply Hcats.
Qed.

Lemma length_if_cons {A : Type} (b : bool) (x : A) (l : list A) :
  length (if b then x :: l else l) = ((if b then 1 else 0) + length l)%nat.
Proof. by destruct b. Qed.

(** X9.  [categorize_files] files every item under exactly one of ten keys,
    the one its kind and lower-cased extension select, and keeps the input
    order inside each list; a key is present only with a non-empty list. *)
Theorem categorize_files_partition (file_list : list details) :
  let categories := categorize_files file_list in
  (forall c,
      default [] (categories !! c)
      = List.filter (fun item => bool_decide (category_of item = c)) file_list) /\
  (forall c, is_Some (categories !! c) ->
             c ∈ category_names /\ categories !! c <> Some []) /\
  (forall c item,
      item ∈ default [] (categories !! c) <->
      item ∈ file_list /\ category_of item = c) /\
  length file_list
  = sum_list (map (fun c => length (default [] (categories !! c))) category_names).
Proof.
  cbv zeta.
  assert (Hlk : forall c,
             default [] (categorize_files file_list !! c)
             = List.filter (fun item => bool_decide (category_of item = c)) file_list).
  { intros c. unfold categorize_files. by rewrite categorize_fold_lookup, lookup_empty. }
  split; [exact Hlk|]. split; [|split].
  - apply categorize_fold_keys. intros c [x Hx]. by rewrite lookup_empty in Hx.
  - intros c item. rewrite Hlk, !list_elem_of_In, List.filter_In.
    by rewrite bool_decide_eq_true.
  - unfold category_names. cbn [map sum_list sum_list_with]. rewrite !Hlk.
    clear Hlk. induction file_list as [|item file_list IH]; [reflexivity|].
    cbn [List.filter]. rewrite !length_if_cons. cbn [length].
    pose proof (category_of_name item) as Hname. unfold category_names in Hname.
    rewrite !elem_of_cons, elem_of_nil in Hname.
    destruct Hname as [H|[H|[H|[H|[H|[H|[H|[H|[H|[H|[]]]]]]]]]]];
      rewrite H;
      repeat match goal with
             | |- context [bool_decide (?a = ?b)] =>
                 let v := eval vm_compute in (bool_decide (a = b)) in
                 change (bool_decide (a = b)) with v
             end;
      cbv beta iota; unfold id in *; lia.
Qed.

(** ** The history store: effects of its operations *)

Lemma existing_Forall (w : World) (l : list string) :
  Forall (fun p => exists_ w p = true) (existing w l).
Proof.
  apply Forall_forall. intros p Hp.
  apply list_elem_of_In, List.filter_In in Hp. tauto.
Qed.

Lemma existing_idem (w : World) (l : list string) :
  existing w (existing w l) = existing w l.
Proof. apply existing_id, existing_Forall. Qed.

Lemma existing_sublist (w : World) (l : list string) :
  existing w l `sublist_of` l.
Proof.
  induction l as [|p l IH]; simpl; [constructor|].
  destruct (exists_ w p); by constructor.
Qed.

Lemma existing_counts_lookup (w : World) (m : gmap string Z) (p : string) (c : Z) :
  existing_counts w m !! p = Some c <-> m !! p = Some c /\ exists_ w p = true.
Proof. unfold existing_counts. by rewrite map_lookup_filter_Some. Qed.

Lemma existing_counts_idem (w : World) (m : gmap string Z) :
  existing_counts w (existing_counts w m) = existing_counts w m.
Proof.
  apply existing_counts_id. intros p c Hpc.
  by apply existing_counts_lookup in Hpc as [_ ?].
Qed.

(** X10.  An access to an existing path adds one to its count, a missing
    count standing for 0, and changes no other count; the path becomes the
    head of the recent list, which gains no other entry; the new state is
    written to the history file when it can be opened for writing, and the
    file is left as it was otherwise. *)
Theorem track_access_effect (w : World) (s : SmartFeatures.t) (p : string) :
  exists_ w p = true ->
  let w' := fst (track_access w s p) in
  let s' := snd (track_access w s p) in
  frequent_items s' !! p = Some (default 0 (frequent_items s !! p) + 1) /\
  (forall q, q <> p -> frequent_items s' !! q = frequent_items s !! q) /\
  head (recent_files s') = Some p /\
  (forall q, q ∈ recent_files s' -> q = p \/ q ∈ recent_files s) /\
  history_file w'
  = (if history_writable w
     then Document {| doc_recent_files := Some (recent_files s');
                      doc_frequent_items := Some (frequent_items s') |}
     else history_file w) /\
  os_stat w' = os_stat w.
Proof.
  intros Hex. cbv zeta. rewrite track_access_recent by exact Hex.
  unfold track_access. rewrite Hex. cbn [negb fst snd frequent_items].
  split; [apply lookup_insert_eq|].
  split; [intros q Hq; by apply lookup_insert_ne|].
  split; [reflexivity|]. split.
  - intros q Hq. apply elem_of_take in Hq as (i & Hq & _).
    apply list_elem_of_lookup_2 in Hq.
    apply elem_of_cons in Hq as [->|Hq]; [by left|]. right.
    destruct (list_in p (recent_files s)); [|exact Hq].
    by eapply list_remove_subset.
  - unfold _save_history, json_dump.
    destruct (history_writable w); by split.
Qed.

Lemma track_access_effect_witness :
  frequent_items (snd (track_access history_world sample_history "/d/a")) !! "/d/a"
  = Some 2.
Proof.
  destruct (track_access_effect history_world sample_history "/d/a") as [H _];
    [reflexivity|].
  exact H.
Defined.

Import SmartPanels MoreSamples.

Lemma frequent_loop_length (w : World) (limit : Z) (items : list (string * Z)) :
  forall acc,
    0 < limit -> Z.of_nat (length acc) < limit ->
    Z.of_nat (length (frequent_loop w limit items acc)) <= limit.
Proof.
  induction items as [|[path count] items IH]; intros acc Hlimit Hacc; simpl; [lia|].
  destruct (get_file_details w path) as [d|].
  - destruct (Z.leb_spec limit (Z.of_nat (length (acc ++ [d])))) as [Hle|Hlt].
    + rewrite length_app in *. simpl in *. lia.
    + by apply IH.
  - destruct (Z.leb_spec limit (Z.of_nat (length acc))) as [Hle|Hlt]; [lia|].
    by apply IH.
Qed.



(** X12.  [_load_history] never fails.  A missing or unreadable file leaves
    the store as it is, so a new store is empty; after a document was
    loaded, every recent path and every counted path exists, the recent list
    is a sub-list of the document's and the counts are the document's. *)
Theorem load_history_keeps_existing (w : World) (s : SmartFeatures.t) :
  (history_file w = Missing \/ (exists e, history_file w = Corrupt e) ->
   _load_history w s = s /\ recent_files (new w "/") = [] /\
   frequent_items (new w "/") = ∅) /\
  (forall d,
      history_file w = Document d ->
      let s' := _load_history w s in
      Forall (fun p => exists_ w p = true) (recent_files s') /\
      recent_files s' `sublist_of` default [] (doc_recent_files d) /\
      (forall p c,
          frequent_items s' !! p = Some c <->
          default ∅ (doc_frequent_items d) !! p = Some c /\ exists_ w p = true) /\
      file_manager s' = file_manager s).
Proof.
  split.
  - unfold new, _load_history, history_exists, json_load.
    intros [->|[e ->]]; by simpl.
  - intros d Hd. cbv zeta.
    unfold _load_history, history_exists, json_load. rewrite Hd. simpl.
    split; [apply existing_Forall|]. split; [apply existing_sublist|].
    split; [|reflexivity]. intros p c. apply existing_counts_lookup.
Qed.

Lemma load_after_save (w : World) (s s0 : SmartFeatures.t) :
  history_writable w = true ->
  _load_history (_save_history w s) s0
  = {| recent_files := existing w (recent_files s);
       frequent_items := existing_counts w (frequent_items s);
       file_manager := file_manager s0 |}.
Proof.
  intros Hw. unfold _save_history, json_dump. rewrite Hw. reflexivity.
Qed.

(** X13.  Saving and then loading prunes and nothing else: when the file can
    be written, the loaded recent list and counts are the saved ones
    restricted to the paths that exist, and saving and loading once more
    changes nothing; when it cannot be written, saving leaves the world as
    it was. *)
Theorem save_load_prunes (w : World) (s s0 : SmartFeatures.t) :
  (history_writable w = true ->
   let s' := _load_history (_save_history w s) s0 in
   recent_files s' = existing w (recent_files s) /\
   frequent_items s' = existing_counts w (frequent_items s) /\
   _load_history (_save_history w s') s0 = s') /\
  (history_writable w = false -> _save_history w s = w).
Proof.
  split; intros Hw; cbv zeta.
  - rewrite !load_after_save by exact Hw. cbn [recent_files frequent_items].
    split; [reflexivity|]. split; [reflexivity|].
    by rewrite existing_idem, existing_counts_idem.
  - unfold _save_history, json_dump. by rewrite Hw.
Qed.

Lemma save_load_prunes_witness :
  recent_files (_load_history (_save_history vanished_world sample_history) (init "/"))
  = ["/d/c.txt"].
Proof.
  destruct (save_load_prunes vanished_world sample_history (init "/")) as [H _].
  destruct (H eq_refl) as [Hrecent _]. exact Hrecent.
Defined.

(** X14.  [get_recent_items] keeps in the recent list the paths that exist,
    in their order, and touches nothing else; asked again in the same world
    it returns the same state and the same answer. *)
Theorem get_recent_items_prunes (w : World) (s : SmartFeatures.t) :
  let s' := fst (get_recent_items w s) in
  recent_files s' = existing w (recent_files s) /\
  Forall (fun p => exists_ w p = true) (recent_files s') /\
  recent_files s' `sublist_of` recent_files s /\
  frequent_items s' = frequent_items s /\
  file_manager s' = file_manager s /\
  get_recent_items w s' = get_recent_items w s /\
  (length (snd (get_recent_items w s)) <= length (recent_files s'))%nat.
Proof.
  cbv zeta. unfold get_recent_items. simpl.
  split; [reflexivity|]. split; [apply existing_Forall|].
  split; [apply existing_sublist|]. split; [reflexivity|]. split; [reflexivity|].
  split; [by rewrite existing_idem|apply collect_details_length].
Qed.

(** X15.  [get_frequent_items] keeps the counts of the paths that exist and
    drops the others, leaving the recent list alone; asked again in the same
    world it changes nothing more; with a positive limit it returns at most
    that many descriptors. *)
Theorem get_frequent_items_prunes (w : World) (s : SmartFeatures.t) (limit : Z) :
  let s' := fst (get_frequent_items w s limit) in
  (forall p c,
      frequent_items s' !! p = Some c <->
      frequent_items s !! p = Some c /\ exists_ w p = true) /\
  recent_files s' = recent_files s /\
  file_manager s' = file_manager s /\
  (forall limit', fst (get_frequent_items w s' limit') = s') /\
  (0 < limit ->
   Z.of_nat (length (snd (get_frequent_items w s limit))) <= limit).
Proof.
  cbv zeta. unfold get_frequent_items. cbn [fst snd recent_files frequent_items
                                              file_manager].
  split; [intros p c; apply existing_counts_lookup|].
  split; [reflexivity|]. split; [reflexivity|]. split.
  - intros limit'. by rewrite existing_counts_idem.
  - intros Hlimit. apply frequent_loop_length; simpl; lia.
Qed.

(** ** Navigation *)

Import Navigation.

Lemma go_up_current_path (dirname : string -> string) (self : FileManager.t) :
  current_path (fst (go_up dirname self)) = dirname (current_path self).
Proof.
  unfold go_up.
  destruct (String.eqb_spec (dirname (current_path self)) (current_path self))
    as [Heq|Hne]; cbn [negb fst current_path]; [by symmetry|reflexivity].
Qed.

(** X16.  [go_up] leaves the object at [os.path.dirname] of its current path,
    whether or not the test of the function lets the assignment run, and
    returns that path; the object is changed exactly when [dirname] moves the
    path; [n] calls in a row lead to the [n]-fold [dirname], and from a path
    that is its own [dirname] every further call stays there.  This holds
    for whatever function the platform provides as [dirname]. *)
Theorem go_up_follows_dirname (dirname : string -> string) (self : FileManager.t) :
  let self' := fst (go_up dirname self) in
  current_path self' = dirname (current_path self) /\
  snd (go_up dirname self) = current_path self' /\
  (self' = self <-> dirname (current_path self) = current_path self) /\
  (forall n, current_path (go_up_times dirname n self)
             = Nat.iter n dirname (current_path self)) /\
  (dirname (current_path self) = current_path self ->
   forall n, go_up_times dirname n self = self).
Proof.
  cbv zeta. split; [apply go_up_current_path|]. split; [|split; [|split]].
  - unfold go_up. by destruct (negb _).
  - split.
    + intros Heq. rewrite <- go_up_current_path. by rewrite Heq.
    + intros Heq. unfold go_up. apply String.eqb_eq in Heq. by rewrite Heq.
  - intros n. revert self. induction n as [|n IH]; intros self; [reflexivity|].
    cbn [go_up_times]. rewrite IH, go_up_current_path.
    symmetry. apply Nat.iter_succ_r.
  - intros Heq n. induction n as [|n IH]; [reflexivity|].
    cbn [go_up_times]. unfold go_up at 1.
    apply String.eqb_eq in Heq. rewrite Heq. exact IH.
Qed.

Lemma isdir_exists (w : World) (p : string) : isdir w p = true -> exists_ w p = true.
Proof. unfold isdir, exists_. by destruct (os_stat w p). Qed.

(** X17.  [change_directory] and [list_directory] move the current path
    alike: whenever [change_directory] returns, the state it leaves is the
    one [list_directory] leaves; it reports success exactly for a directory
    that passes the read check, with no message, and on failure it keeps the
    state and gives a message.  It raises only when the read check itself
    raises, a case [list_directory] reports as an error. *)
Theorem change_directory_agrees (w : World) (self : FileManager.t) (path : string) :
  let target :=
    if isabs path then path else join (current_path self) path in
  match change_directory w self path with
  | Ok (self', (ok, msg)) =>
      self' = fst (list_directory w self path) /\
      (ok = true <-> isdir w target = true /\ os_access_R w target = Ok true) /\
      (ok = true -> msg = None /\ current_path self' = target) /\
      (ok = false -> self' = self /\ is_Some msg)
  | Raise e =>
      isdir w target = true /\ os_access_R w target = Raise e /\
      fst (list_directory w self path) = self /\
      is_Some (snd (snd (list_directory w self path)))
  end.
Proof.
  cbv zeta. unfold change_directory, list_directory.
  destruct (isdir w _) eqn:Hdir.
  - rewrite (isdir_exists _ _ Hdir). cbn [negb].
    destruct (os_access_R w _) as [[|]|e]; simpl.
    + split.
      * destruct (os_scandir w _) as [entries|e]; [reflexivity|].
        by destruct (is_PermissionError e).
      * repeat split; auto; discriminate.
    + repeat split; eauto; try discriminate. by intros [_ ?].
    + repeat split; eauto.
  - simpl. split.
    + by destruct (negb (exists_ w _)).
    + repeat split; eauto; try discriminate. by intros [? _].
Qed.

(** ** Duplicate detection: further properties *)

Import SmartPanels MoreSamples.

Lemma digest_of_nonempty (w : World) (alg p h : string) :
  digest_of w alg p = Some h ->
  h <> "" /\ get_file_hash w p alg 65536 = Some h.
Proof.
  unfold digest_of. destruct (get_file_hash w p alg 65536) as [h'|]; [|discriminate].
  destruct (String.eqb_spec h' ""); [discriminate|]. intros [= <-]. by split.
Qed.

(** X18.  No file is listed in two groups of [find_duplicate_files]; no group
    is filed under the empty string; every member of a group is a regular
    file of at least the threshold size. *)
Theorem duplicate_groups_disjoint (w : World) (root_dir alg : string) (min_size_mb : Z) :
  let groups := find_duplicate_files w root_dir alg min_size_mb in
  (forall h1 h2 ps1 ps2 p,
      groups !! h1 = Some ps1 -> groups !! h2 = Some ps2 ->
      p ∈ ps1 -> p ∈ ps2 -> h1 = h2) /\
  (forall h ps,
      groups !! h = Some ps ->
      h <> "" /\
      forall p, p ∈ ps ->
        isfile w p = true /\
        exists s, size_of w p = Some s /\ min_size_mb * 1024 * 1024 <= s).
Proof.
  cbv zeta.
  pose proof (find_duplicate_files_sound w root_dir alg min_size_mb) as Hsound.
  split.
  - intros h1 h2 ps1 ps2 p H1 H2 Hp1 Hp2.
    destruct (Hsound h1 ps1 H1) as [_ Hm1]. destruct (Hsound h2 ps2 H2) as [_ Hm2].
    destruct (Hm1 p Hp1) as [_ Hd1]. destruct (Hm2 p Hp2) as [_ Hd2]. congruence.
  - intros h ps Hlk. destruct (Hsound h ps Hlk) as [Hlen Hmem]. split.
    + destruct ps as [|p ps]; [simpl in Hlen; lia|].
      destruct (Hmem p) as [_ Hd]; [by left|].
      by apply digest_of_nonempty in Hd as [? _].
    + intros p Hp. destruct (Hmem p Hp) as [Hf _].
      destruct (candidate_files_size w root_dir min_size_mb p Hf) as (s & Hs & Hle & Hfile).
      split; [exact Hfile|]. by exists s.
Qed.

(** X19.  With an algorithm other than [md5], [sha1] and [sha256] the
    detector finds nothing: no file gets a digest, and the mapping is
    empty. *)
Theorem find_duplicate_files_unsupported (w : World) (root_dir alg : string)
    (min_size_mb : Z) :
  alg <> "md5" -> alg <> "sha1" -> alg <> "sha256" ->
  find_duplicate_files w root_dir alg min_size_mb = ∅.
Proof.
  intros H1 H2 H3. apply map_empty. intros h.
  destruct (find_duplicate_files w root_dir alg min_size_mb !! h) as [ps|] eqn:Hlk;
    [|reflexivity].
  destruct (find_duplicate_files_sound w root_dir alg min_size_mb h ps Hlk)
    as [Hlen Hmem].
  destruct ps as [|p ps]; [simpl in Hlen; lia|].
  destruct (Hmem p) as [_ Hd]; [by left|].
  apply digest_of_nonempty in Hd as [_ Hd].
  unfold get_file_hash in Hd.
  rewrite get_file_hash_try_unsupported in Hd by assumption.
  by destruct (negb (isfile w p)).
Qed.

Lemma find_duplicate_files_unsupported_witness :
  find_duplicate_files duplicates_world "/root" "sha512" 0 = ∅.
Proof.
  apply (find_duplicate_files_unsupported duplicates_world "/root" "sha512" 0);
    discriminate.
Defined.

Lemma bucket_fold_short (w : World) (alg : string) (fbs : list (Z * list string)) :
  forall dup,
    (forall s B, (s, B) ∈ fbs -> (length B <= 1)%nat) ->
    fold_left (bucket_step w alg) fbs dup = dup.
Proof.
  induction fbs as [|[s B] fbs IH]; intros dup Hshort; cbn [fold_left];
    [reflexivity|].
  assert (Hstep : bucket_step w alg dup (s, B) = dup).
  { unfold bucket_step. specialize (Hshort s B ltac:(by left)).
    destruct (Nat.ltb_spec 1 (length B)); [lia|reflexivity]. }
  rewrite Hstep. apply IH. intros s' B' Hin. apply (Hshort s' B'). by right.
Qed.

Lemma size_bucket_short (w : World) (s : Z) (files : list string) :
  NoDup files ->
  (forall p q, p ∈ files -> q ∈ files -> p <> q -> size_of w p <> size_of w q) ->
  (length (size_bucket w s files) <= 1)%nat.
Proof.
  intros Hnd Hsizes.
  assert (Hnd' : NoDup (size_bucket w s files))
    by (apply NoDup_ListNoDup, List.NoDup_filter; by apply NoDup_ListNoDup).
  destruct (size_bucket w s files) as [|a [|b l]] eqn:Hb; simpl; [lia|lia|].
  assert (Ha : a ∈ size_bucket w s files) by (rewrite Hb; by left).
  assert (Hb' : b ∈ size_bucket w s files) by (rewrite Hb; right; by left).
  apply size_bucket_elem in Ha as [Ha Hsa], Hb' as [Hb' Hsb].
  apply NoDup_cons in Hnd' as [Hab _].
  destruct (Hsizes a b Ha Hb'); [|congruence].
  intros ->. apply Hab. by left.
Qed.

(** X20.  When the candidate files have pairwise different sizes, the
    detector returns the empty mapping, whatever their digests: a file alone
    in its size bucket is never grouped. *)
Theorem find_duplicate_files_distinct_sizes (w : World) (root_dir alg : string)
    (min_size_mb : Z) :
  let files := candidate_files w root_dir min_size_mb in
  NoDup files ->
  (forall p q, p ∈ files -> q ∈ files -> p <> q -> size_of w p <> size_of w q) ->
  find_duplicate_files w root_dir alg min_size_mb = ∅.
Proof.
  cbv zeta. intros Hnd Hsizes. unfold find_duplicate_files.
  apply bucket_fold_short. intros s B Hin.
  destruct (buckets_of_elem w _ _ s B (files_by_size_buckets w root_dir min_size_mb) Hin)
    as [-> _].
  by apply size_bucket_short.
Qed.

Lemma find_duplicate_files_distinct_sizes_witness :
  find_duplicate_files distinct_sizes_world "/u" "md5" 0 = ∅.
Proof.
  apply (find_duplicate_files_distinct_sizes distinct_sizes_world "/u" "md5" 0).
  - apply (bool_decide_unpack _). vm_compute. exact I.
  - intros p q Hp Hq Hne.
    change (candidate_files distinct_sizes_world "/u" 0)
      with ["/u/a"; "/u/b"; "/u/c"] in Hp, Hq.
    rewrite !elem_of_cons, elem_of_nil in Hp, Hq.
    destruct Hp as [->|[->|[->|[]]]]; destruct Hq as [->|[->|[->|[]]]];
      first [contradiction | discriminate].
Defined.

(** ** Search: case folding and empty results *)

Lemma prefix_lower (a : string) :
  forall b, String.prefix a b = true -> String.prefix (lower a) (lower b) = true.
Proof.
  induction a as [|x a IH]; intros [|y b]; simpl; try done.
  destruct (ascii_dec x y) as [->|]; [|done].
  destruct (ascii_dec (lower_char y) (lower_char y)); [|done]. apply IH.
Qed.

Lemma contains_lower (sub : string) (s : string) :
  contains sub s = true -> contains (lower sub) (lower s) = true.
Proof.
  induction s as [|a s IH]; cbn [contains lower].
  - destruct (String.prefix sub "") eqn:Hp; [|done].
    intros _. pose proof (prefix_lower _ _ Hp) as Hp'. cbn [lower] in Hp'.
    by rewrite Hp'.
  - destruct (String.prefix sub (String a s)) eqn:Hp.
    + intros _. pose proof (prefix_lower _ _ Hp) as Hp'. cbn [lower] in Hp'.
      by rewrite Hp'.
    + intros H. rewrite (IH H). destruct (String.prefix (lower sub) _); reflexivity.
Qed.

(** X21.  On the strings of the model, where [lower] works character by
    character, an entry that passes the name test of [search_files] as it is
    written passes it after case folding: a search that ignores case finds
    at least what the case-sensitive search finds, by name and by
    extension. *)
Theorem name_match_case_folding (search_type keyword name : string) :
  name_match search_type keyword name = true ->
  name_match search_type (lower keyword) (lower name) = true.
Proof.
  unfold name_match.
  destruct (String.eqb search_type "name") eqn:Hname; cbn [andb].
  - destruct (contains keyword name) eqn:Hc.
    + intros _. by rewrite (contains_lower _ _ Hc).
    + apply String.eqb_eq in Hname as ->. done.
  - destruct (String.eqb search_type "extension"); [|done].
    rewrite splitext_lower. cbn [snd].
    destruct (String.eqb_spec keyword (snd (splitext name))) as [->|]; simpl.
    + intros _. by rewrite String.eqb_refl.
    + by rewrite andb_false_r.
Qed.

Lemma name_match_case_folding_witness :
  name_match "name" "read" "readme.md" = true.
Proof.
  apply (name_match_case_folding "name" "READ" "README.md"). reflexivity.
Defined.

Lemma search_entry_None (w : World) (dirpath keyword_search search_type : string)
    (case_sensitive : bool) (min_size_mb max_size_mb days_old : Z) (name : string) :
  search_entry w dirpath keyword_search search_type case_sensitive
    min_size_mb max_size_mb days_old name = None.
Proof.
  unfold search_entry. rewrite get_file_details_None.
  by destruct (negb (exists_ w (join dirpath name))).
Qed.

Lemma omap_none {A B : Type} (f : A -> option B) (l : list A) :
  (forall x, f x = None) -> omap f l = [].
Proof.
  intros Hf. induction l as [|x l IH]; [reflexivity|].
  cbn. by rewrite Hf.
Qed.

Lemma large_fold_nil (w : World) (m : Z) (walk : list walk_entry) :
  forall acc, fold_left (large_walk_step w m) walk acc = acc.
Proof.
  induction walk as [|[[dirpath dirnames] filenames] walk IH]; intros acc;
    cbn [fold_left]; [reflexivity|].
  rewrite IH. unfold large_walk_step.
  destruct (readable_dir w dirpath); [|reflexivity].
  induction filenames as [|f filenames IHf]; [reflexivity|].
  cbn [fold_left].
  assert (Hstep : large_step w m dirpath acc f = acc).
  { unfold large_step. rewrite get_file_details_None.
    destruct (isfile w _); [|reflexivity].
    destruct (getsize w _) as [size|]; [|reflexivity].
    by destruct (m <=? size). }
  by rewrite Hstep.
Qed.

Lemma frequent_loop_nil (w : World) (limit : Z) (items : list (string * Z)) :
  frequent_loop w limit items [] = [].
Proof.
  induction items as [|[path count] items IH]; [reflexivity|].
  cbn [frequent_loop]. rewrite get_file_details_None.
  by destruct (limit <=? Z.of_nat (length [])).
Qed.

(** X22.  No scan returns a descriptor: the listing of [list_directory], the
    results of [search_files], the recent and the frequent items and the
    large files are empty on every input, every entry being dropped when
    [get_file_details] answers [None]. *)
Theorem scans_return_no_descriptor (w : World) :
  (forall self path, fst (snd (list_directory w self path)) = []) /\
  (forall root_dir keyword search_type case_sensitive min_size_mb max_size_mb days_old,
      search_files w root_dir keyword search_type case_sensitive
        min_size_mb max_size_mb days_old = []) /\
  (forall s, snd (get_recent_items w s) = []) /\
  (forall s limit, snd (get_frequent_items w s limit) = []) /\
  (forall root_dir min_size_mb limit,
      find_large_files w root_dir min_size_mb limit = []).
Proof.
  split; [|split; [|split; [|split]]].
  - intros self path.
    destruct (list_directory_items w self path) as [H|(entries & _ & H)];
      [exact H|].
    by rewrite H, collect_details_nil.
  - intros root_dir keyword search_type cs mn mx days. unfold search_files.
    induction (os_walk w root_dir) as [|[[dirpath dirnames] filenames] walk IH];
      [reflexivity|].
    cbn [flat_map]. rewrite IH, app_nil_r.
    destruct (readable_dir w dirpath); [|reflexivity].
    apply omap_none. intros name. apply search_entry_None.
  - intros s. apply collect_details_nil.
  - intros s limit. apply frequent_loop_nil.
  - intros root_dir mn limit. unfold find_large_files.
    rewrite large_fold_nil. unfold slice_upto. cbn [sorted_by fold_right length].
    destruct (0 <=? limit); by rewrite take_nil.
Qed.

(** ** Contextual suggestions *)

Import Suggestions.

Lemma append_details_none (w : World) (keep : string -> bool)
    (items : list (string * Z)) :
  forall acc,
    append_details w keep items acc
    = (acc ++ map (fun _ => None)
                (List.filter (fun kv : string * Z => keep (fst kv)) items))%list.
Proof.
  unfold append_details.
  induction items as [|kv items IH]; intros acc; cbn [fold_left List.filter].
  - by rewrite app_nil_r.
  - rewrite IH, get_file_details_None.
    destruct (keep (fst kv)); [|reflexivity].
    by rewrite <- app_assoc.
Qed.

Lemma unique_by_path_none (n : list (string * Z)) (rest : list (option details)) :
  unique_by_path (map (fun _ => None) n ++ rest) []
  = match n with
    | [] => unique_by_path rest []
    | _ :: _ => Raise TypeError
    end.
Proof. by destruct n. Qed.

Lemma filter_nonempty_iff {A : Type} (f : A -> bool) (l : list A) :
  List.filter f l <> [] <-> exists x, x ∈ l /\ f x = true.
Proof.
  split.
  - destruct (List.filter f l) as [|x r] eqn:Hf; [done|]. intros _.
    exists x. rewrite list_elem_of_In. apply List.filter_In. rewrite Hf. by left.
  - intros (x & Hx & Hfx) Hnil.
    assert (Hin : In x (List.filter f l))
      by (apply List.filter_In; split; [by apply list_elem_of_In|exact Hfx]).
    by rewrite Hnil in Hin.
Qed.

(** X23.  [get_contextual_suggestions] never returns a suggestion.  It
    prunes the recent list and leaves the rest of the store alone; when some
    counted directory lies in the current path, or beside it, the answer
    [None] of [get_file_details] is subscripted and the call raises
    [TypeError]; otherwise it returns the empty list.  This holds for
    whatever function the platform provides as [os.path.dirname]. *)
Theorem get_contextual_suggestions_outcome (dirname : string -> string)
    (w : World) (self : SmartFeatures.t) (current_path : string) (limit : Z) :
  let r := get_contextual_suggestions dirname w self current_path limit in
  recent_files (fst r) = existing w (recent_files self) /\
  frequent_items (fst r) = frequent_items self /\
  file_manager (fst r) = file_manager self /\
  ((exists p, suggested dirname w self current_path p) -> snd r = Raise TypeError) /\
  (~ (exists p, suggested dirname w self current_path p) -> snd r = Ok []).
Proof.
  cbv zeta. unfold get_contextual_suggestions, get_recent_items.
  rewrite collect_details_nil. cbn [List.filter fold_left].
  rewrite !append_details_none. cbn [app fst snd recent_files frequent_items
                                         file_manager].
  split; [reflexivity|]. split; [reflexivity|]. split; [reflexivity|].
  set (items := map_to_list (frequent_items self)).
  set (keep1 := fun kv : string * Z =>
                  (isdir w (fst kv)
                   && String.eqb (dirname (fst kv)) current_path)%bool).
  set (keep3 := fun kv : string * Z =>
                  (isdir w (fst kv)
                   && String.eqb (dirname (fst kv))
                        (dirname current_path)
                   && negb (String.eqb (fst kv) current_path))%bool).
  set (cond := (negb (String.eqb (dirname current_path) "")
                && negb (String.eqb (dirname current_path)
                           current_path))%bool).
  assert (Hiff : (exists p, suggested dirname w self current_path p) <->
                 List.filter keep1 items <> [] \/
                 (cond = true /\ List.filter keep3 items <> [])).
  { rewrite !filter_nonempty_iff. unfold suggested, keep1, keep3, cond, items. split.
    - intros (p & [c Hc] & Hdir & [Hd|(Hp1 & Hp2 & Hd & Hne)]).
      + left. exists (p, c). split; [by apply elem_of_map_to_list|]. simpl.
        rewrite Hdir. by apply String.eqb_eq.
      + right. apply String.eqb_neq in Hp1, Hp2, Hne. rewrite Hp1, Hp2. split; [done|].
        exists (p, c). split; [by apply elem_of_map_to_list|]. simpl.
        rewrite Hdir, Hne. rewrite (proj2 (String.eqb_eq _ _) Hd). done.
    - intros [([p c] & Hin & Hk)|(Hcond & [p c] & Hin & Hk)];
        apply elem_of_map_to_list in Hin; simpl in Hk; exists p.
      + apply andb_true_iff in Hk as [Hdir Hd]. apply String.eqb_eq in Hd.
        split; [by exists c|]. split; [exact Hdir|by left].
      + apply andb_true_iff in Hk as [Hk Hne]. apply andb_true_iff in Hk as [Hdir Hd].
        apply andb_true_iff in Hcond as [Hp1 Hp2].
        apply String.eqb_eq in Hd. apply negb_true_iff in Hne, Hp1, Hp2.
        apply String.eqb_neq in Hne, Hp1, Hp2.
        split; [by exists c|]. split; [exact Hdir|by right]. }
  rewrite Hiff. clear Hiff.
  assert (Hslice : slice_upto (@nil details) limit = [])
    by (unfold slice_upto; destruct (0 <=? limit); by rewrite take_nil).
  fold keep1. fold keep3. fold cond.
  destruct (List.filter keep1 items) as [|x1 l1] eqn:H1.
  - destruct cond.
    + cbn [map app]. rewrite <- (app_nil_r (map _ (List.filter keep3 items))).
      rewrite unique_by_path_none.
      destruct (List.filter keep3 items) as [|x3 l3]; simpl.
      * rewrite Hslice. split; [intros [?|[_ ?]]; done|done].
      * split; [done|]. intros H. destruct H. right. by split.
    + simpl. rewrite Hslice. split; [intros [?|[? _]]; done|done].
  - split; [|intros H; destruct H; by left].
    intros _. by destruct cond.
Qed.

(** ** Directory listing: errors *)

(** X24.  [list_directory] returns no error message exactly when the target
    exists, is a directory, passes the read check and can be enumerated; with
    a message the listing is empty; when one of the three checks fails, or
    raises, the state is left as it was. *)
Theorem list_directory_error_iff (w : World) (self : FileManager.t) (path : string) :
  let target :=
    if isabs path then path else join (current_path self) path in
  let r := list_directory w self path in
  (snd (snd r) = None <->
   exists_ w target = true /\ isdir w target = true /\
   os_access_R w target = Ok true /\ exists entries, os_scandir w target = Ok entries) /\
  (is_Some (snd (snd r)) -> fst (snd r) = []) /\
  (exists_ w target = false \/ isdir w target = false \/
   os_access_R w target <> Ok true -> fst r = self).
Proof.
  cbv zeta. unfold list_directory.
  destruct (exists_ w _) eqn:Hex; cbn [negb].
  2:{ simpl. split; [split; [discriminate|by intros (? & _)]|]. by split. }
  destruct (isdir w _) eqn:Hdir; cbn [negb].
  2:{ simpl. split; [split; [discriminate|by intros (_ & ? & _)]|]. by split. }
  destruct (os_access_R w _) as [[|]|e] eqn:Hacc.
  - destruct (os_scandir w _) as [entries|e] eqn:Hscan.
    + simpl. split; [split; [intros _; eauto 10|done]|].
      split; [by intros [? ?]|]. intros [?|[?|?]]; done.
    + assert (Hno : ~ (true = true /\ true = true /\ Ok true = Ok true /\
                       exists entries, Raise (A := list string) e = Ok entries))
        by (by intros (_ & _ & _ & ? & ?)).
      destruct (is_PermissionError e); simpl;
        (split; [split; [discriminate|by intros ?]|];
         split; [done|]; intros [?|[?|?]]; done).
  - simpl. split; [split; [discriminate|by intros (_ & _ & ? & _)]|]. by split.
  - simpl. split; [split; [discriminate|by intros (_ & _ & ? & _)]|]. by split.
Qed.
